(** * Funnel Transformer: attention structure, pooling and encoder/decoder

    A shallow embedding of
    [mindnlp/transformers/models/funnel/modeling_funnel.py].

    Tensors are nested lists in row-major order: a tensor of rank 2 is a
    list of rows, a tensor of rank 3 a list of matrices, and so on.  Floating
    point values are idealised as rationals ([Q]); integer tensors hold [Z].
    Sequence lengths, strides and other sizes are natural numbers, and lists
    have no size limit: the limits of memory and of the 64-bit sizes of the
    tensor library are not modelled.  Python exceptions are values of
    [Error]. *)

From Stdlib Require Import ZArith QArith Qminmax String Lia.
From stdpp Require Import base list option sorting.

Open Scope nat_scope.

(** ** Tensors *)

Abbreviation Tensor2 A := (list (list A)).
Abbreviation Tensor3 A := (list (list (list A))).
Abbreviation Tensor4 A := (list (list (list (list A)))).

(** Python exceptions raised by the modelled code. *)
Inductive Error :=
  | ValueError (msg : string)
  | NotImplementedError (msg : string)
  | IndexError
  | RecursionError
  | TypeError
  | UnboundLocalError
  | RuntimeError (msg : string).

Abbreviation Result A := (Error + A)%type.

Definition bindR {A B} (m : Result A) (k : A → Result B) : Result B :=
  match m with
  | inl e => inl e
  | inr a => k a
  end.

Notation "'let*' x ':=' m 'in' k" := (bindR m (λ x, k))
  (at level 10, x pattern, m at level 100, k at level 200).

(** Sequential evaluation of [f] on the elements of [l], as a generator
    consumed by [tuple(...)] or [list(...)]: the first exception stops it. *)
Fixpoint mapR {A B} (f : A → Result B) (l : list A) : Result (list B) :=
  match l with
  | [] => inr []
  | x :: l' => let* y := f x in let* ys := mapR f l' in inr (y :: ys)
  end.

Section TensorOps.
Context {A : Type}.

(** [chunks n m l]: the first [n] consecutive blocks of [m] elements of
    [l]; the row-major regrouping behind [ops.reshape]. *)
Fixpoint chunks (n m : nat) (l : list A) : list (list A) :=
  match n with
  | 0 => []
  | S n' => take m l :: chunks n' m (drop m l)
  end.

Definition flatten4 (t : Tensor4 A) : list A := concat (concat (concat t)).

(** [t.shape] for a tensor of rank 4, read off the first entries (an
    empty axis hides the sizes of the axes after it). *)
Definition shape4 (t : Tensor4 A) : nat * nat * nat * nat :=
  let d1 := hd [] t in
  let d2 := hd [] d1 in
  let d3 := hd [] d2 in
  (length t, length d1, length d2, length d3).

(** [has_shape2 t s m] and [has_shape4 t b h s m]: [t] is a rectangular
    tensor of shape [[s, m]], of shape [[b, h, s, m]]. *)
Definition has_shape2 (t : Tensor2 A) (s m : nat) : Prop :=
  length t = s ∧ Forall (λ z, length z = m) t.

Definition has_shape4 (t : Tensor4 A) (b h s m : nat) : Prop :=
  length t = b ∧
  Forall (λ x, length x = h ∧ Forall (λ y, has_shape2 y s m) x) t.

Definition get4 (t : Tensor4 A) (b h i j : nat) : option A :=
  x ← t !! b; y ← x !! h; z ← y !! i; z !! j.
End TensorOps.

(** Modelled from the spec: [ops.reshape] of [mindnlp.core.ops], whose source
    is not available.  The spec's relative-shift gather "reshapes to move the
    relative-offset axis adjacent to the query axis": the elements keep their
    row-major order and are regrouped to the new shape; a shape with another
    number of elements is an error. *)
Definition ops_reshape4 {A} (t : Tensor4 A) (b h r c : nat) : Result (Tensor4 A) :=
  let flat := flatten4 t in
  if decide (length flat = b * h * r * c)
  then inr (chunks b h (chunks (b * h) r (chunks (b * h * r) c flat)))
  else inl (RuntimeError "reshape: number of elements").

(** Modelled from the spec: [ops.arange] of [mindnlp.core.ops], whose source
    is not available.  [ops.arange(start, end, step)] is the arithmetic sequence
    [start, start + step, ...] of the terms strictly before [end] (strictly
    above it for a negative step), that is [ceil((end - start) / step)]
    terms; a zero step is an error. *)
Definition ops_arange (start stop step : Z) : option (list Z) :=
  if (step =? 0)%Z then None
  else
    let n := Z.to_nat (- ((start - stop) / step))%Z in
    Some ((λ k : nat, (start + Z.of_nat k * step)%Z) <$> seq 0 n).

(** Elementwise binary operation on one axis with broadcasting: an axis of
    size 1 is stretched to the size of the other operand.  (Sizes that differ
    and are both not 1 are rejected by the tensor library; such operands do
    not occur below, where the shapes are [[B, T, 1]] and [[B, 1, T]].) *)
Definition broadcast2 {X Y Z : Type} (f : X → Y → Z) (xs : list X) (ys : list Y) : list Z :=
  match xs, ys with
  | [x], _ => f x <$> ys
  | _, [y] => (λ x, f x y) <$> xs
  | _, _ => zip_with f xs ys
  end.

Definition broadcast3 {X Y Z : Type} (f : X → Y → Z)
    (a : Tensor3 X) (b : Tensor3 Y) : Tensor3 Z :=
  broadcast2 (broadcast2 (broadcast2 f)) a b.

(** [t[:, :, None]] and [t[:, None]] on a tensor of rank 2. *)
Definition unsqueeze_last {A} (t : Tensor2 A) : Tensor3 A :=
  (λ row : list A, (λ x, [x]) <$> row) <$> t.
Definition unsqueeze_axis1 {A} (t : Tensor2 A) : Tensor3 A :=
  (λ row : list A, [row]) <$> t.

(** Entrywise map on a tensor of rank 3. *)
Definition map3 {A B} (f : A → B) (t : Tensor3 A) : Tensor3 B :=
  (λ m : Tensor2 A, (λ r : list A, f <$> r) <$> m) <$> t.

(** [.int()] on a boolean tensor entry and [.bool()] on an integer one. *)
Definition bool_to_int (b : bool) : Z := if b then 1%Z else 0%Z.
Definition int_to_bool (z : Z) : bool := negb (z =? 0)%Z.

(** ** Configuration *)

(** The values of [config.attention_type]. *)
Inductive AttentionType := factorized | relative_shift.

(** Modelled from the spec: [FunnelConfig] of [configuration_funnel.py],
    whose source is not available; the spec lists its fields.  Only the
    fields read by the modelled code are kept. *)

Record FunnelConfig := {
  block_sizes : list nat;
  block_repeats : list nat;
  num_decoder_layers : nat;
  pooling_type : string;
  pool_q_only : bool;
  separate_cls : bool;
  truncate_seq : bool;
  attention_type : AttentionType;
}.

(** Modelled from the spec: [config.num_blocks] is the number of blocks, the
    length of [block_sizes]. *)
Definition num_blocks (config : FunnelConfig) : nat := length (block_sizes config).

(** ** FunnelAttentionStructure *)

Definition cls_token_type_id : Z := 2.

(** [token_type_ids_to_mat]: [token_type_ids] has shape [[batch, seq]]. *)
Definition token_type_ids_to_mat (token_type_ids : Tensor2 Z) : Tensor3 bool :=
  let token_type_mat : Tensor3 bool :=
    broadcast3 Z.eqb (unsqueeze_last token_type_ids) (unsqueeze_axis1 token_type_ids) in
  let cls_ids : Tensor2 bool :=
    (λ row : list Z, (λ x, (x =? cls_token_type_id)%Z) <$> row) <$> token_type_ids in
  let cls_mat : Tensor3 Z :=
    broadcast3 Z.lor
      (map3 bool_to_int (unsqueeze_last cls_ids))
      (map3 bool_to_int (unsqueeze_axis1 cls_ids)) in
  map3 int_to_bool (broadcast3 Z.lor cls_mat (map3 bool_to_int token_type_mat)).

(** The values of the tensor library's 64-bit integers. *)
Definition int64 (z : Z) : Prop := (- 2 ^ 63 ≤ z < 2 ^ 63)%Z.

(** [relative_pos]: [pos[0]], [pos[-1]] and [pooled_pos[0]] raise IndexError
    on an empty vector.  The integers are those of the source as long as the
    positions, the stride and every intermediate distance are [int64] values
    (the positions are entries of a tensor, [num_remove * stride] is added to
    one, and [ops.arange] builds an [int64] tensor); what the source does once
    a value leaves that range is not described by this definition, and the
    statements about it assume the range. *)
Definition relative_pos (pos : list Z) (stride : Z) (pooled_pos : option (list Z))
    (shift : Z) : Result (list Z) :=
  let pooled_pos := default pos pooled_pos in
  match list.head pooled_pos, list.head pos, list.last pos with
  | Some pooled0, Some pos0, Some pos_last =>
      let ref_point := (pooled0 - pos0)%Z in
      let num_remove := (shift * Z.of_nat (length pooled_pos))%Z in
      let max_dist := (ref_point + num_remove * stride)%Z in
      let min_dist := (pooled0 - pos_last)%Z in
      match ops_arange max_dist (min_dist - 1) (- stride) with
      | Some r => inr r
      | None => inl (ValueError "arange: zero step")
      end
  | _, _, _ => inl IndexError
  end.

(** Modelled from the spec: [F.pad] of [mindnlp.core.nn.functional], whose
    source is not available.  Constant padding of the last two axes of a
    matrix with [ncols] columns by [(left, right, top, bottom)]; the call
    gives no fill value and the spec describes the class-token mask as a 0/1
    mask that zeroes the contributions of the class-token row and column, so
    the fill is 0. *)
Definition F_pad2d (ncols : nat) (t : Tensor2 Q) (pad : nat * nat * nat * nat) : Tensor2 Q :=
  let '(pad_left, pad_right, pad_top, pad_bottom) := pad in
  let width := pad_left + ncols + pad_right in
  replicate pad_top (replicate width 0%Q)
    ++ ((λ row : list Q, replicate pad_left 0%Q ++ row ++ replicate pad_right 0%Q) <$> t)
    ++ replicate pad_bottom (replicate width 0%Q).

(** [inputs_embeds.new_ones([rows, cols])]. *)
Definition new_ones (rows cols : nat) : Tensor2 Q := replicate rows (replicate cols 1%Q).

(** The attributes of a [FunnelAttentionStructure] instance that the forward
    pass writes; both are unset ([None]) after [__init__]. *)
Record FunnelAttentionStructure := {
  pooling_mult : option nat;
  seq_len : option nat;
}.

Definition new_attention_structure : FunnelAttentionStructure :=
  {| pooling_mult := None; seq_len := None |}.

(** The attention inputs without [position_embeds] (sinusoid tables, floating
    point, see [get_position_embeds]). *)
Record AttentionInputs := {
  token_type_mat : option (Tensor3 bool);
  attention_mask : option (Tensor2 Q);
  cls_mask : option (Tensor2 Q);
}.

(** The two assignments at the head of [init_attention_inputs]. *)
Definition init_attention_state (inputs_seq_len : nat) : FunnelAttentionStructure :=
  {| pooling_mult := Some 1; seq_len := Some inputs_seq_len |}.

(** [init_attention_inputs]: [inputs_seq_len] is [inputs_embeds.shape[1]].
    [position_embeds] is the outcome of the call
    [self.get_position_embeds(seq_len, inputs_embeds.dtype)], the first
    statement after the two assignments: its floating-point tables are not
    modelled, and when it raises (as the gather of the relative-shift
    attention does on sequences that are short for the number of blocks)
    [init_attention_inputs] raises the same exception before the mask is
    built.  A sequence length of 0 makes [new_ones([-1, -1])] fail with a
    ValueError. *)
Definition init_attention_inputs {P} (config : FunnelConfig)
    (position_embeds : Result P)
    (inputs_seq_len : nat) (attention_mask : option (Tensor2 Q))
    (token_type_ids : option (Tensor2 Z))
    : FunnelAttentionStructure * Result (P * AttentionInputs) :=
  let self := init_attention_state inputs_seq_len in
  (self,
   let* position_embeds := position_embeds in
   let token_type_mat := token_type_ids_to_mat <$> token_type_ids in
   let* cls_mask :=
     if separate_cls config then
       match inputs_seq_len with
       | 0 => inl (ValueError "new_ones: negative dimension")
       | S n => inr (Some (F_pad2d n (new_ones n n) (1, 0, 1, 0)))
       end
     else inr None in
   inr (position_embeds,
        {| token_type_mat := token_type_mat;
           attention_mask := attention_mask;
           cls_mask := cls_mask |})).

(** ** The relative-shift gather *)

Definition _relative_shift_gather {A} (positional_attn : Tensor4 A)
    (context_len shift : nat) : Result (Tensor4 A) :=
  let '(batch_size, n_head, seq_len, max_rel_len) := shape4 positional_attn in
  let* positional_attn :=
    ops_reshape4 positional_attn batch_size n_head max_rel_len seq_len in
  let positional_attn :=
    (λ b : Tensor3 A, (λ h : Tensor2 A, drop shift h) <$> b) <$> positional_attn in
  (* a negative target dimension is rejected (the value -1, whose size the
     library would infer, is not modelled) *)
  if decide (max_rel_len < shift) then inl (RuntimeError "reshape: negative dimension")
  else
    let* positional_attn :=
      ops_reshape4 positional_attn batch_size n_head seq_len (max_rel_len - shift) in
    inr ((λ b : Tensor3 A, (λ h : Tensor2 A, (λ r : list A, take context_len r) <$> h) <$> b)
           <$> positional_attn).

(** ** Pooling *)

(** Ceiling division, [ceil(a / b)]. *)
Definition ceil_div (a b : nat) : nat := (a + (b - 1)) / b.

(** The pooling windows over the axis of [rows]: consecutive groups of [k]
    rows, [ceil(len / k)] of them, the last one shorter when [k] does not
    divide the length. *)
Definition windows {A} (k : nat) (rows : list A) : list (list A) :=
  chunks (ceil_div (length rows) k) k rows.

(** Column-wise reduction of the rows of one window with [f]. *)
Definition reduce_rows (f : Q → Q → Q) (w : Tensor2 Q) : list Q :=
  match w with
  | [] => []
  | r :: rs => foldl (zip_with f) r rs
  end.

(** Modelled from the spec: [F.avg_pool2d] and [F.max_pool2d] of
    [mindnlp.core.nn.functional], whose source is not available.  Called on a
    tensor [[N, C, H, W]] with kernel and stride [(k, 1)] and
    [ceil_mode=True]: the spec's "1-D windowed pooling (mean/max/min) over
    the sequence axis with ceiling rounding so that ceil(seq_len/stride)
    outputs are produced".  The mean of a window divides by the number of
    rows the window holds. *)
Definition pool2d (reduce : Tensor2 Q → list Q) (t : Tensor4 Q) (k : nat) : Result (Tensor4 Q) :=
  if decide (k = 0) then inl (RuntimeError "pool2d: stride should not be zero")
  else inr ((λ n : Tensor3 Q, (λ c : Tensor2 Q, reduce <$> windows k c) <$> n) <$> t).

Definition mean_rows (w : Tensor2 Q) : list Q :=
  (λ x, x / inject_Z (Z.of_nat (length w)))%Q <$> reduce_rows Qplus w.

Definition F_avg_pool2d := pool2d mean_rows.
Definition F_max_pool2d := pool2d (reduce_rows Qmax).

(** Entrywise negation of a tensor of rank 4. *)
Definition neg4 (t : Tensor4 Q) : Tensor4 Q :=
  (λ n : Tensor3 Q, (λ c : Tensor2 Q, (λ r : list Q, Qopp <$> r) <$> c) <$> n) <$> t.

#[local] Unset Elimination Schemes.

(** What [pool_tensor] and [stride_pool] accept: [None], a tensor of shape
    [[B, T]] or [[B, T, H]], or a tuple or list of such values. *)
Inductive PyTensor :=
  | PNone
  | PTensor2 (t : Tensor2 Q)
  | PTensor3 (t : Tensor3 Q)
  | PTuple (l : list PyTensor)
  | PList (l : list PyTensor).
#[local] Set Elimination Schemes.

(** [tensor[:, :-1]] on the sequence axis of [[B, T, ...]]. *)
Definition drop_last_token {A} (t : Tensor2 A) : Tensor2 A :=
  (λ row : list A, take (length row - 1) row) <$> t.

(** The class-token handling at the head of [pool_tensor]:
    [ops.cat([tensor[:, :1], suffix], dim=1)]. *)
Definition cat_cls {A} (config : FunnelConfig) (t : Tensor2 A) : Tensor2 A :=
  if separate_cls config then
    let suffix := if truncate_seq config then drop_last_token t else t in
    zip_with app ((λ row : list A, take 1 row) <$> t) suffix
  else t.

(** The dispatch of [pool_tensor] on [mode], on the rank-4 view. *)
Definition pool_mode (mode : string) (tensor : Tensor4 Q) (stride : nat) : Result (Tensor4 Q) :=
  if String.eqb mode "mean" then F_avg_pool2d tensor stride
  else if String.eqb mode "max" then F_max_pool2d tensor stride
  else if String.eqb mode "min" then
    let* r := F_max_pool2d (neg4 tensor) stride in inr (neg4 r)
  else inl (NotImplementedError "The supported modes are 'mean', 'max' and 'min'.").

(** [pool_tensor].  [fuel] is the interpreter's recursion limit: a call at
    depth 0 raises RecursionError.  On a tuple or list the source recurses on
    [tensor] itself for every element [x] of it (line 279). *)
Fixpoint pool_tensor (fuel : nat) (config : FunnelConfig) (tensor : PyTensor)
    (mode : string) (stride : nat) : Result PyTensor :=
  match fuel with
  | 0 => inl RecursionError
  | S fuel' =>
    match tensor with
    | PNone => inr PNone
    | PTuple l =>
        let* r := mapR (λ x : PyTensor, pool_tensor fuel' config tensor mode stride) l in
        inr (PTuple r)
    | PList l =>
        let* r := mapR (λ x : PyTensor, pool_tensor fuel' config tensor mode stride) l in
        inr (PList r)
    | PTensor2 t =>
        let t := cat_cls config t in
        (* tensor[:, None, :, None] *)
        let t4 : Tensor4 Q := (λ row : list Q, [(λ x, [x]) <$> row]) <$> t in
        let* r := pool_mode mode t4 stride in
        (* tensor[:, 0, :, 0] *)
        inr (PTensor2 ((λ n : Tensor3 Q, (λ r : list Q, hd 0%Q r) <$> hd [] n) <$> r))
    | PTensor3 t =>
        let t := cat_cls config t in
        (* tensor[:, None, :, :] *)
        let t4 : Tensor4 Q := (λ m : Tensor2 Q, [m]) <$> t in
        let* r := pool_mode mode t4 stride in
        (* tensor[:, 0] *)
        inr (PTensor3 ((λ n : Tensor3 Q, hd [] n) <$> r))
    end
  end.

(** ** Upsampling *)

(** [ops.repeat_interleave(x, repeats, dim=1)] on one batch entry. *)
Definition repeat_interleave {A} (row : list A) (repeats : nat) : list A :=
  concat ((λ a, replicate repeats a) <$> row).

(** [output[:, :n]] for a Python integer [target_len - 1]: the value -1
    (reached for [target_len = 0]) drops the last token. *)
Definition take_upto_pred {A} (target_len : nat) (row : list A) : list A :=
  match target_len with
  | 0 => take (length row - 1) row
  | S n => take n row
  end.

(** [upsample].  [x] has shape [[B, T, H]]; a token (the [H] values of one
    position) is an element of [V] and [zero] is the token of zeros that
    [ops.pad] appends.  [stride = 0] with [truncate_seq] asks [ops.pad] for
    a padding of -1 on an empty axis, which it rejects. *)
Definition upsample {V} (zero : V) (x : Tensor2 V) (stride target_len : nat)
    (separate_cls truncate_seq : bool) : Result (Tensor2 V) :=
  if decide (stride = 1) then inr x
  else
    let cls := (λ row : list V, take 1 row) <$> x in
    let x := if separate_cls then (λ row : list V, drop 1 row) <$> x else x in
    let output := (λ row : list V, repeat_interleave row stride) <$> x in
    if separate_cls then
      let* output :=
        if truncate_seq then
          match stride with
          | 0 => inl (RuntimeError "pad: negative padding")
          | S s => inr ((λ row : list V, row ++ replicate s zero) <$> output)
          end
        else inr output in
      let output := (λ row : list V, take_upto_pred target_len row) <$> output in
      inr (zip_with app cls output)
    else inr ((λ row : list V, take target_len row) <$> output).

(** ** Encoder, decoder and model

    The forward passes are embedded at the level of shapes: a hidden state
    [[batch, seq_len, d_model]] is represented by its sequence length
    [shape[1]], on which the control flow depends; the arithmetic of the
    attention and feed-forward layers is floating point and is not modelled.
    The state is the pair of attention structures owned by the encoder and
    the decoder together with the trace of the sub-modules called so far. *)

(** Sequence length of [pool_tensor] on a single tensor of sequence length
    [n] (see [pool_tensor_seq_len_correct]). *)
Definition pool_tensor_seq_len (config : FunnelConfig) (n : nat) (mode : string)
    (stride : nat) : Result nat :=
  let n :=
    if separate_cls config
    then min 1 n + (if truncate_seq config then n - 1 else n)
    else n in
  if String.eqb mode "mean" || String.eqb mode "max" || String.eqb mode "min" then
    if decide (stride = 0) then inl (RuntimeError "pool2d: stride should not be zero")
    else inr (ceil_div n stride)
  else inl (NotImplementedError "The supported modes are 'mean', 'max' and 'min'.").

(** Sequence length of [upsample] on a tensor of sequence length [n] (see
    [upsample_seq_len_correct]). *)
Definition upsample_seq_len (n stride target_len : nat)
    (separate_cls truncate_seq : bool) : Result nat :=
  if decide (stride = 1) then inr n
  else
    let cls := min 1 n in
    let x := if separate_cls then n - 1 else n in
    let output := x * stride in
    if separate_cls then
      let* output :=
        if truncate_seq then
          match stride with
          | 0 => inl (RuntimeError "pad: negative padding")
          | S s => inr (output + s)
          end
        else inr output in
      let output :=
        match target_len with
        | 0 => output - 1
        | S t => min t output
        end in
      inr (cls + output)
    else inr (min target_len output).

(** A call [layer(query, key, value, attention_inputs)] of an encoder layer,
    with the encoder's [pooling_mult] at the time of the call. *)
Record LayerCall := {
  lc_block : nat;
  lc_do_pooling : bool;
  lc_query_len : nat;
  lc_key_len : nat;
  lc_pooling_mult : option nat;
}.

Inductive Event :=
  | EvWarnPadding
  | EvEmbeddings
  | EvEncoderLayer (c : LayerCall)
  | EvDecoderLayer (hidden_len : nat).

Record World := {
  encoder_structure : FunnelAttentionStructure;
  decoder_structure : FunnelAttentionStructure;
  trace : list Event;
}.

(** The attention structure a method's [self] refers to. *)
Inductive StructRef := encoder_ref | decoder_ref.

(** State and exception monad: an exception keeps the state reached. *)
Definition M (A : Type) : Type := World → World * Result A.

Definition ret {A} (a : A) : M A := λ w, (w, inr a).
Definition raise {A} (e : Error) : M A := λ w, (w, inl e).
Definition bind {A B} (m : M A) (k : A → M B) : M B :=
  λ w, match m w with
       | (w', inl e) => (w', inl e)
       | (w', inr a) => k a w'
       end.
Definition lift {A} (r : Result A) : M A := λ w, (w, r).

Declare Scope monad_scope.
Delimit Scope monad_scope with monad.
Notation "x <- m ;; k" := (bind m (λ x, k))
  (at level 100, m at next level, right associativity) : monad_scope.
Notation "m ;; k" := (bind m (λ _, k))
  (at level 100, right associativity) : monad_scope.
Open Scope monad_scope.

Definition log (ev : Event) : M unit :=
  λ w, ({| encoder_structure := encoder_structure w;
           decoder_structure := decoder_structure w;
           trace := trace w ++ [ev] |}, inr tt).

Definition get_structure (self : StructRef) : M FunnelAttentionStructure :=
  λ w, (w, inr (match self with
                | encoder_ref => encoder_structure w
                | decoder_ref => decoder_structure w
                end)).

Definition set_structure (self : StructRef) (s : FunnelAttentionStructure) : M unit :=
  λ w, (match self with
        | encoder_ref =>
            {| encoder_structure := s; decoder_structure := decoder_structure w;
               trace := trace w |}
        | decoder_ref =>
            {| encoder_structure := encoder_structure w; decoder_structure := s;
               trace := trace w |}
        end, inr tt).

(** A [for] loop over [l] that threads the local variables [loc]. *)
Fixpoint for_each {X L} (l : list X) (body : L → X → M L) (loc : L) : M L :=
  match l with
  | [] => ret loc
  | x :: l' => loc' <- body loc x ;; for_each l' body loc'
  end.

(** [self.pooling_mult *= 2]. *)
Definition double_pooling_mult (self : StructRef) : M unit :=
  s <- get_structure self ;;
  match pooling_mult s with
  | None => raise TypeError
  | Some m => set_structure self {| pooling_mult := Some (m * 2); seq_len := seq_len s |}
  end.

(** [init_attention_inputs] on a hidden state of sequence length
    [inputs_seq_len] (see [init_attention_inputs]), for a call of
    [get_position_embeds] that returns, as it does with the factorized
    attention.  With the relative-shift attention that call gathers rows of
    the embedding table (see [position_rows]) and raises on sequences that
    are short for the number of blocks, which this definition does not
    describe. *)
Definition init_attention_inputs_shape (config : FunnelConfig) (self : StructRef)
    (inputs_seq_len : nat) : M unit :=
  set_structure self (init_attention_state inputs_seq_len) ;;
  if separate_cls config && (inputs_seq_len =? 0)
  then raise (ValueError "new_ones: negative dimension")
  else ret tt.

(** [pre_attention_pooling]: returns the sequence length of the pooled
    [output].  The stride pooling of the attention inputs writes no state
    and is left out. *)
Definition pre_attention_pooling (config : FunnelConfig) (self : StructRef)
    (output : nat) : M nat :=
  if pool_q_only config then
    lift (pool_tensor_seq_len config output (pooling_type config) 2)
  else
    double_pooling_mult self ;;
    lift (pool_tensor_seq_len config output (pooling_type config) 2).

(** [post_attention_pooling], on the state it writes. *)
Definition post_attention_pooling (config : FunnelConfig) (self : StructRef) : M unit :=
  if pool_q_only config then double_pooling_mult self else ret tt.

(** The local variables of [FunnelEncoder.forward]. *)
Record EncoderLocals := {
  hidden : nat;
  pooled_hidden : option nat;
  all_hidden_states : option (list nat);
}.

(** One call of an encoder layer; [layer_output[0]] has the shape of
    [query]. *)
Definition encoder_layer (block_index : nat) (do_pooling : bool) (query key : nat) : M nat :=
  s <- get_structure encoder_ref ;;
  log (EvEncoderLayer {| lc_block := block_index; lc_do_pooling := do_pooling;
                         lc_query_len := query; lc_key_len := key;
                         lc_pooling_mult := pooling_mult s |}) ;;
  ret query.

(** The body of the loop over [repeat_index]. *)
Definition encoder_repeat (config : FunnelConfig) (block_index : nat)
    (pooling_flag : bool) (layer_index : nat)
    (loc : EncoderLocals) (repeat_index : nat) : M EncoderLocals :=
  let do_pooling := (repeat_index =? 0) && (layer_index =? 0) && pooling_flag in
  query <-
    (if do_pooling then
       match pooled_hidden loc with
       | Some p => ret p
       | None => raise UnboundLocalError
       end
     else ret (hidden loc)) ;;
  let key :=
    if do_pooling then (if pool_q_only config then hidden loc else query)
    else hidden loc in
  layer_output <- encoder_layer block_index do_pooling query key ;;
  (if do_pooling then post_attention_pooling config encoder_ref else ret tt) ;;
  ret {| hidden := layer_output;
         pooled_hidden := pooled_hidden loc;
         all_hidden_states := (λ l, l ++ [layer_output]) <$> all_hidden_states loc |}.

(** The body of the loop over the layers of a block. *)
Definition encoder_layer_loop (config : FunnelConfig) (block_index : nat)
    (pooling_flag : bool) (loc : EncoderLocals) (layer_index : nat) : M EncoderLocals :=
  match block_repeats config !! block_index with
  | None => raise IndexError
  | Some repeats =>
      for_each (seq 0 repeats) (encoder_repeat config block_index pooling_flag layer_index) loc
  end.

(** The body of the loop over the blocks; [block] is the number of layers of
    the block, [config.block_sizes[block_index]]. *)
Definition encoder_block (config : FunnelConfig) (loc : EncoderLocals)
    (b : nat * nat) : M EncoderLocals :=
  let '(block_index, block) := b in
  let pooling_flag :=
    ((if separate_cls config then 2 else 1) <? hidden loc) && (0 <? block_index) in
  loc <-
    (if pooling_flag then
       pooled <- pre_attention_pooling config encoder_ref (hidden loc) ;;
       ret {| hidden := hidden loc; pooled_hidden := Some pooled;
              all_hidden_states := all_hidden_states loc |}
     else ret loc) ;;
  for_each (seq 0 block) (encoder_layer_loop config block_index pooling_flag) loc.

(** [enumerate(l)]. *)
Definition enumerate {A} (l : list A) : list (nat * A) := zip (seq 0 (length l)) l.

(** [FunnelEncoder.forward], called with an attention mask as the models
    call it (they pass [ops.ones(input_shape)] when none is given): returns
    [(last_hidden_state, hidden_states)]. *)
Definition FunnelEncoder_forward (config : FunnelConfig) (inputs_embeds : nat)
    (output_hidden_states : bool) : M (nat * option (list nat)) :=
  init_attention_inputs_shape config encoder_ref inputs_embeds ;;
  loc <- for_each (enumerate (block_sizes config)) (encoder_block config)
           {| hidden := inputs_embeds; pooled_hidden := None;
              all_hidden_states := if output_hidden_states then Some [inputs_embeds] else None |} ;;
  ret (hidden loc, all_hidden_states loc).

(** Sequence length of [a + b] for tensors whose shapes differ at most on
    the sequence axis: equal lengths, or one of them 1 (broadcast). *)
Definition broadcast_len (a b : nat) : Result nat :=
  if decide (a = b) then inr a
  else if decide (a = 1) then inr b
  else if decide (b = 1) then inr a
  else inl (RuntimeError "operands could not be broadcast together").

(** The stride of the decoder, [2 ** (len(config.block_sizes) - 1)].  With no
    block Python computes the float [0.5], which [ops.repeat_interleave]
    rejects. *)
Definition decoder_stride (config : FunnelConfig) : Result nat :=
  match length (block_sizes config) with
  | 0 => inl TypeError
  | S n => inr (2 ^ n)
  end.

(** [FunnelDecoder.forward]: returns [(last_hidden_state, hidden_states)]. *)
Definition FunnelDecoder_forward (config : FunnelConfig)
    (final_hidden first_block_hidden : nat)
    (output_hidden_states : bool) : M (nat * option (list nat)) :=
  stride <- lift (decoder_stride config) ;;
  upsampled_hidden <-
    lift (upsample_seq_len final_hidden stride first_block_hidden
            (separate_cls config) (truncate_seq config)) ;;
  hidden <- lift (broadcast_len upsampled_hidden first_block_hidden) ;;
  let all_hidden_states := if output_hidden_states then Some [hidden] else None in
  init_attention_inputs_shape config decoder_ref hidden ;;
  loc <- for_each (seq 0 (num_decoder_layers config))
           (λ (loc : nat * option (list nat)) (_ : nat),
              log (EvDecoderLayer (fst loc)) ;;
              ret (fst loc, (λ l, l ++ [fst loc]) <$> snd loc))
           (hidden, all_hidden_states) ;;
  ret loc.

(** The check of [input_ids] and [inputs_embeds] shared by
    [FunnelBaseModel.forward] and [FunnelModel.forward]; a tensor is given by
    its shape [(batch, seq_len)] ([inputs_embeds.shape[:-1]] for the
    embeddings).  Returns [input_shape]. *)
Definition check_inputs (input_ids inputs_embeds : option (nat * nat)) : M (nat * nat) :=
  match input_ids, inputs_embeds with
  | Some _, Some _ =>
      raise (ValueError "You cannot specify both input_ids and inputs_embeds at the same time")
  | Some ids, None => log EvWarnPadding ;; ret ids
  | None, Some embeds => ret embeds
  | None, None =>
      raise (ValueError "You have to specify either input_ids or inputs_embeds")
  end.

(** [FunnelEmbeddings.forward]: the embeddings keep the sequence length. *)
Definition FunnelEmbeddings_forward (input_shape : nat * nat) : M nat :=
  log EvEmbeddings ;; ret (snd input_shape).

(** [FunnelBaseModel.forward]. *)
Definition FunnelBaseModel_forward (config : FunnelConfig)
    (input_ids inputs_embeds : option (nat * nat))
    (output_hidden_states : bool) : M (nat * option (list nat)) :=
  input_shape <- check_inputs input_ids inputs_embeds ;;
  inputs_embeds <- FunnelEmbeddings_forward input_shape ;;
  FunnelEncoder_forward config inputs_embeds output_hidden_states.

(** [FunnelModel.forward].  The encoder is always asked for its hidden
    states; [first_block_hidden] is
    [encoder_outputs[1][config.block_sizes[0]]]. *)
Definition FunnelModel_forward (config : FunnelConfig)
    (input_ids inputs_embeds : option (nat * nat))
    (output_hidden_states : bool) : M (nat * option (list nat)) :=
  input_shape <- check_inputs input_ids inputs_embeds ;;
  inputs_embeds <- FunnelEmbeddings_forward input_shape ;;
  encoder_outputs <- FunnelEncoder_forward config inputs_embeds true ;;
  first_block_hidden <-
    match list.head (block_sizes config) with
    | None => raise IndexError
    | Some b0 =>
        match snd encoder_outputs with
        | None => raise TypeError
        | Some hs =>
            match hs !! b0 with
            | None => raise IndexError
            | Some h => ret h
            end
        end
    end ;;
  decoder_outputs <-
    FunnelDecoder_forward config (fst encoder_outputs) first_block_hidden
      output_hidden_states ;;
  ret (fst decoder_outputs,
       if output_hidden_states
       then hs_e ← snd encoder_outputs; hs_d ← snd decoder_outputs; Some (hs_e ++ hs_d)
       else None).

(** ** Predicates of the statements and invariants of the proofs *)

(** The messages of the two usage errors of the input check. *)
Definition usage_message (msg : string) : Prop :=
  msg = "You cannot specify both input_ids and inputs_embeds at the same time"%string
  ∨ msg = "You have to specify either input_ids or inputs_embeds"%string.

(** [m] never raises one of the usage errors. *)
Definition no_usage_error {A} (m : M A) : Prop :=
  ∀ w msg, usage_message msg → snd (m w) ≠ inl (ValueError msg).

Definition not_usage_error {A} (r : Result A) : Prop :=
  ∀ msg, usage_message msg → r ≠ inl (ValueError msg).

(** The operands and the intermediate values of [relative_pos] are [int64]
    values: the positions, the stride, [ref_point], [num_remove * stride],
    [max_dist], [min_dist] and the end [min_dist - 1] of the range. *)
Definition relative_pos_int64 (pos : list Z) (stride : Z) (pooled_pos : list Z)
    (shift pooled0 pos0 pos_last : Z) : Prop :=
  Forall int64 pos ∧ Forall int64 pooled_pos ∧ int64 stride
  ∧ int64 (pooled0 - pos0)
  ∧ int64 (shift * Z.of_nat (length pooled_pos) * stride)
  ∧ int64 (pooled0 - pos0 + shift * Z.of_nat (length pooled_pos) * stride)
  ∧ int64 (pooled0 - pos_last)
  ∧ int64 (pooled0 - pos_last - 1).

(** The modes [pool_tensor] supports. *)
Definition supported_mode (mode : string) : Prop :=
  mode = "mean"%string ∨ mode = "max"%string ∨ mode = "min"%string.

(** Sequence length after one pooling of a hidden state of length [n] with
    stride 2, and the sequence length in block [k] when every block after
    the first pools. *)
Definition pooled_len (config : FunnelConfig) (n : nat) : nat :=
  ceil_div (if separate_cls config
            then min 1 n + (if truncate_seq config then n - 1 else n)
            else n) 2.

Fixpoint block_len (config : FunnelConfig) (n k : nat) : nat :=
  match k with
  | 0 => n
  | S k' => pooled_len config (block_len config n k')
  end.

(** The sequence length above which the encoder pools a block. *)
Definition pooling_threshold (config : FunnelConfig) : nat :=
  if separate_cls config then 2 else 1.




(** The state of a model after construction, before any forward pass. *)
Definition initial_world : World :=
  {| encoder_structure := new_attention_structure;
     decoder_structure := new_attention_structure;
     trace := [] |}.

(** The configuration of the end-to-end example: two blocks of two layers,
    factorized attention, a separate class token; the other fields are
    free. *)
Definition config_2_2 (repeats : list nat) (decoder_layers : nat) (mode : string)
    (q_only truncate : bool) : FunnelConfig :=
  {| block_sizes := [2; 2]; block_repeats := repeats;
     num_decoder_layers := decoder_layers; pooling_type := mode;
     pool_q_only := q_only; separate_cls := true; truncate_seq := truncate;
     attention_type := factorized |}.


(** The configuration used in the worked examples. *)
Definition config_small : FunnelConfig := config_2_2 [1; 1] 2 "mean" true false.

(** A synthetic score tensor of shape [[1, 1, 4, 8]] ([seq_len = 4],
    [context_len = 4], [shift = 1]) whose entry [(i, c)] is [10*i + c]. *)
Definition positional_attn_4_4 : Tensor4 Z :=
  [[[[0; 1; 2; 3; 4; 5; 6; 7];
     [10; 11; 12; 13; 14; 15; 16; 17];
     [20; 21; 22; 23; 24; 25; 26; 27];
     [30; 31; 32; 33; 34; 35; 36; 37]]]]%Z.

(** What [pool_mode] computes on one matrix [[T, W]] of the rank-4 view,
    for a supported mode. *)
Definition pool_rows (mode : string) (k : nat) (c : Tensor2 Q) : Tensor2 Q :=
  if String.eqb mode "mean" then mean_rows <$> windows k c
  else if String.eqb mode "max" then reduce_rows Qmax <$> windows k c
  else (λ r : list Q, Qopp <$> r)
         <$> (reduce_rows Qmax <$> windows k ((λ r : list Q, Qopp <$> r) <$> c)).

(** ** Stride pooling *)

(** [l[::2]]: the elements at the even indices. *)
Fixpoint every_second {A} (l : list A) : list A :=
  match l with
  | [] => []
  | a :: l' =>
      a :: match l' with
           | [] => []
           | _ :: l'' => every_second l''
           end
  end.

(** The body of [stride_pool] seen on the pooled axis, [l] being the list of
    the slices of the tensor along that axis: with [separate_cls] the first
    slice is prepended ([ops.cat([tensor[cls_slice], tensor], dim=axis)]), and
    the result is indexed with [axis_slice], which is [[:-1:2]] under
    [separate_cls] and [truncate_seq] and [[::2]] otherwise. *)
Definition stride_slice (config : FunnelConfig) {A} (l : list A) : list A :=
  let tensor := if separate_cls config then take 1 l ++ l else l in
  if separate_cls config && truncate_seq config
  then every_second (take (length tensor - 1) tensor)
  else every_second tensor.

(** The values [stride_pool] is called on: [None], a tensor of rank 1 to 3
    (position ids, [cls_mask] and the factorized position embeddings,
    [token_type_mat]), or a tuple or list of such values. *)
#[local] Unset Elimination Schemes.
Inductive PyValue (A : Type) :=
  | VNone
  | VTensor1 (t : list A)
  | VTensor2 (t : Tensor2 A)
  | VTensor3 (t : Tensor3 A)
  | VTuple (l : list (PyValue A))
  | VList (l : list (PyValue A)).
#[local] Set Elimination Schemes.
Arguments VNone {A}.
Arguments VTensor1 {A} t.
Arguments VTensor2 {A} t.
Arguments VTensor3 {A} t.
Arguments VTuple {A} l.
Arguments VList {A} l.

(** The [axis] argument of [stride_pool]: an int, or a list or tuple of
    ints. *)
Inductive Axis :=
  | AxisInt (axis : Z)
  | AxisSeq (axes : list Z).

(** [stride_pool] with an int [axis].  [axis %= tensor.ndim] is Python's
    modulo, whose result has the sign of [tensor.ndim]. *)
Fixpoint stride_pool_axis (config : FunnelConfig) {A} (tensor : PyValue A) (axis : Z)
    : PyValue A :=
  match tensor with
  | VNone => VNone
  | VTuple l => VTuple ((λ x, stride_pool_axis config x axis) <$> l)
  | VList l => VList ((λ x, stride_pool_axis config x axis) <$> l)
  | VTensor1 t => VTensor1 (stride_slice config t)
  | VTensor2 t =>
      match (axis mod 2)%Z with
      | 0%Z => VTensor2 (stride_slice config t)
      | _ => VTensor2 ((λ row : list A, stride_slice config row) <$> t)
      end
  | VTensor3 t =>
      match (axis mod 3)%Z with
      | 0%Z => VTensor3 (stride_slice config t)
      | 1%Z => VTensor3 ((λ mat : Tensor2 A, stride_slice config mat) <$> t)
      | _ =>
          VTensor3 ((λ mat : Tensor2 A,
                       (λ row : list A, stride_slice config row) <$> mat) <$> t)
      end
  end.

(** [stride_pool]: a list of axes is pooled one axis after the other. *)
Definition stride_pool (config : FunnelConfig) {A} (tensor : PyValue A) (axis : Axis)
    : PyValue A :=
  match tensor with
  | VNone => VNone
  | _ =>
      match axis with
      | AxisSeq axes => foldl (stride_pool_axis config) tensor axes
      | AxisInt axis => stride_pool_axis config tensor axis
      end
  end.

(** [stride_pool_pos]. *)
Definition stride_pool_pos (config : FunnelConfig) (pos_id : list Z) (block_index : nat)
    : list Z :=
  if separate_cls config then
    let cls_pos := [(- 2 ^ Z.of_nat block_index + 1)%Z] in
    let pooled_pos_id :=
      if truncate_seq config
      then take (length pos_id - 2) (drop 1 pos_id)
      else drop 1 pos_id in
    cls_pos ++ every_second pooled_pos_id
  else every_second pos_id.

(** The position ids of block [block_index] in the loop of
    [get_position_embeds]: [pos] is [arange(0, seq_len)] before the loop and
    [stride_pool_pos(pos, block_index)] from block 1 on. *)
Fixpoint block_pos (config : FunnelConfig) (seq_len : nat) (block_index : nat) : list Z :=
  match block_index with
  | 0 => Z.of_nat <$> seq 0 seq_len
  | S k => stride_pool_pos config (block_pos config seq_len k) (S k)
  end.

(** The arithmetic progression [start, start + step, ...] of [n] terms. *)
Definition progression (start step : Z) (n : nat) : list Z :=
  (λ i : nat, (start + Z.of_nat i * step)%Z) <$> seq 0 n.

(** The position of the class token of block [k]. *)
Definition first_pos (config : FunnelConfig) (k : nat) : Z :=
  if separate_cls config then (1 - 2 ^ Z.of_nat k)%Z else 0%Z.

(** The form of [cls_mask] on a sequence of length [n]: the first row and
    the first column are 0, all other entries 1. *)
Definition cls_mask_of (n : nat) : Tensor2 Q :=
  F_pad2d (n - 1) (new_ones (n - 1) (n - 1)) (1, 0, 1, 0).

(** A synthetic score tensor of shape [[1, 1, 2, 7]] (2 pooled queries, 3
    keys, [shift = 2]) whose entry [(i, c)] is [10*i + c]. *)
Definition positional_attn_2_7 : Tensor4 Z :=
  [[[[0; 1; 2; 3; 4; 5; 6];
     [10; 11; 12; 13; 14; 15; 16]]]]%Z.

(** ** Sequence lengths through the encoder *)

(** The sequence length of the hidden state after block [block_index], from
    the length [h] before it: the block pools when [h] exceeds the threshold
    and the block is not the first. *)
Definition next_len (config : FunnelConfig) (block_index h : nat) : nat :=
  if (pooling_threshold config <? h) && (0 <? block_index)
  then pooled_len config h else h.

(** The sequence length after block [k] of the encoder on an input of
    length [n]. *)
Fixpoint encoder_len (config : FunnelConfig) (n k : nat) : nat :=
  match k with
  | 0 => n
  | S k' => next_len config (S k') (encoder_len config n k')
  end.




(** ** The question-answering head *)








(** ** Token-type attention *)

(** [relative_token_type_attention] from [token_type_bias] on, the
    projection [einsum("bind,snd->bnis", q_head + r_s_bias, seg_embed)] of
    the query on the two segment embeddings, of shape
    [[batch_size, n_head, seq_len, 2]]: an entry of it is the pair
    [(diff_token_type, same_token_type)] that [ops.split] separates.
    [token_type_mat[:, None]] is broadcast over the heads, [ops.where] chooses
    between the two biases, which are broadcast over the keys, and the result
    is multiplied by [cls_mask], which is broadcast over batch and heads.
    Without [token_type_mat] the function returns the number 0 ([None]
    here).  Operands whose shapes disagree are rejected by the tensor
    library; here the shorter one bounds the result. *)
Definition relative_token_type_attention (token_type_mat : option (Tensor3 bool))
    (token_type_bias : Tensor3 (Q * Q)) (cls_mask : option (Tensor2 Q))
    : option (Tensor4 Q) :=
  match token_type_mat with
  | None => None
  | Some token_type_mat =>
      let token_type_attn : Tensor4 Q :=
        zip_with
          (λ (mat : Tensor2 bool) (bias : Tensor2 (Q * Q)),
             (λ bias_head : list (Q * Q),
                zip_with
                  (λ (row : list bool) (b : Q * Q),
                     (λ same : bool, if same then snd b else fst b) <$> row)
                  mat bias_head) <$> bias)
          token_type_mat token_type_bias in
      Some match cls_mask with
           | None => token_type_attn
           | Some cls_mask =>
               (λ x : Tensor3 Q,
                  (λ head : Tensor2 Q, zip_with (zip_with Qmult) head cls_mask) <$> x)
                 <$> token_type_attn
           end
  end.

(** ** Pooling the attention inputs *)

(** The attention inputs as [pre_attention_pooling] and
    [post_attention_pooling] see them: [position_embeds] by its elements (the
    tuple [(phi, pi, psi, omega)] of the factorized attention, or the list of
    the blocks' embeddings of the relative-shift attention), the other three
    as values that may be [None]. *)
Record AttentionValues := {
  av_position_embeds : list (PyValue Q);
  av_token_type_mat : PyValue bool;
  av_attention_mask : PyTensor;
  av_cls_mask : PyValue Q;
}.

Definition attention_values (position_embeds : list (PyValue Q))
    (inputs : AttentionInputs) : AttentionValues :=
  {| av_position_embeds := position_embeds;
     av_token_type_mat := from_option VTensor3 VNone (token_type_mat inputs);
     av_attention_mask := from_option PTensor2 PNone (attention_mask inputs);
     av_cls_mask := from_option VTensor2 VNone (cls_mask inputs) |}.

(** The elements of a tuple. *)
Definition tuple_items {A} (v : PyValue A) : list (PyValue A) :=
  match v with
  | VTuple l => l
  | _ => []
  end.

(** [pre_attention_pooling] on the values: returns the pooled [output] and
    the attention inputs. *)
Definition pre_attention_pooling_values (fuel : nat) (config : FunnelConfig)
    (output : PyTensor) (attention_inputs : AttentionValues)
    : Result (PyTensor * AttentionValues) :=
  let position_embeds := av_position_embeds attention_inputs in
  let token_type_mat := av_token_type_mat attention_inputs in
  let attention_mask := av_attention_mask attention_inputs in
  let cls_mask := av_cls_mask attention_inputs in
  if pool_q_only config then
    let position_embeds :=
      match attention_type config with
      | factorized =>
          tuple_items (stride_pool config (VTuple (take 2 position_embeds)) (AxisInt 0))
            ++ drop 2 position_embeds
      | relative_shift => position_embeds
      end in
    let token_type_mat := stride_pool config token_type_mat (AxisInt 1) in
    let cls_mask := stride_pool config cls_mask (AxisInt 0) in
    let* output := pool_tensor fuel config output (pooling_type config) 2 in
    inr (output,
         {| av_position_embeds := position_embeds; av_token_type_mat := token_type_mat;
            av_attention_mask := attention_mask; av_cls_mask := cls_mask |})
  else
    let position_embeds :=
      match attention_type config with
      | factorized => tuple_items (stride_pool config (VTuple position_embeds) (AxisInt 0))
      | relative_shift => position_embeds
      end in
    let token_type_mat := stride_pool config token_type_mat (AxisSeq [1; 2]%Z) in
    let cls_mask := stride_pool config cls_mask (AxisSeq [1; 2]%Z) in
    let* attention_mask := pool_tensor fuel config attention_mask "min" 2 in
    let* output := pool_tensor fuel config output (pooling_type config) 2 in
    inr (output,
         {| av_position_embeds := position_embeds; av_token_type_mat := token_type_mat;
            av_attention_mask := attention_mask; av_cls_mask := cls_mask |}).

(** [post_attention_pooling] on the values. *)
Definition post_attention_pooling_values (fuel : nat) (config : FunnelConfig)
    (attention_inputs : AttentionValues) : Result AttentionValues :=
  let position_embeds := av_position_embeds attention_inputs in
  let token_type_mat := av_token_type_mat attention_inputs in
  let attention_mask := av_attention_mask attention_inputs in
  let cls_mask := av_cls_mask attention_inputs in
  if pool_q_only config then
    let position_embeds :=
      match attention_type config with
      | factorized =>
          take 2 position_embeds
            ++ tuple_items (stride_pool config (VTuple (drop 2 position_embeds)) (AxisInt 0))
      | relative_shift => position_embeds
      end in
    let token_type_mat := stride_pool config token_type_mat (AxisInt 2) in
    let cls_mask := stride_pool config cls_mask (AxisInt 1) in
    let* attention_mask := pool_tensor fuel config attention_mask "min" 2 in
    inr {| av_position_embeds := position_embeds; av_token_type_mat := token_type_mat;
           av_attention_mask := attention_mask; av_cls_mask := cls_mask |}
  else inr attention_inputs.

(** ** The rows of the position-embedding table *)

(** The indices [rel_pos + zero_offset] with which [get_position_embeds]
    gathers, from the table [pos_embed] of [4 * seq_len] rows (one per
    relative position in [arange(-seq_len * 2, seq_len * 2)]), the embeddings
    of the attention without pooling of block [block_index]. *)
Definition position_rows (config : FunnelConfig) (seq_len block_index : nat)
    : Result (list Z) :=
  let pos := block_pos config seq_len block_index in
  let stride := (2 ^ Z.of_nat block_index)%Z in
  let* rel_pos := relative_pos pos stride None 1 in
  let zero_offset := (Z.of_nat seq_len * 2)%Z in
  inr ((λ r, (r + zero_offset)%Z) <$> rel_pos).

(** * Properties *)

(** ** Broadcasting and the token-type matrix *)

Lemma broadcast2_same_length {X Y Z} (f : X → Y → Z) xs ys :
  length xs = length ys → broadcast2 f xs ys = zip_with f xs ys.
Proof.
  intros Hlen. destruct xs as [|x [|x' xs]], ys as [|y [|y' ys]]; simplify_eq/=; done.
Qed.

Lemma broadcast2_singleton_r {X Y Z} (f : X → Y → Z) xs y :
  broadcast2 f xs [y] = (λ x, f x y) <$> xs.
Proof. by destruct xs as [|x [|x' xs]]. Qed.

Lemma int_to_bool_lor (a b : bool) :
  int_to_bool (Z.lor (bool_to_int a) (bool_to_int b)) = a || b.
Proof. by destruct a, b. Qed.

Lemma bool_to_int_lor (a b : bool) :
  Z.lor (bool_to_int a) (bool_to_int b) = bool_to_int (a || b).
Proof. by destruct a, b. Qed.

Lemma broadcast2_fmap_diag {A X Y Z} (f : X → Y → Z) (g : A → X) (h : A → Y) (l : list A) :
  broadcast2 f (g <$> l) (h <$> l) = (λ a, f (g a) (h a)) <$> l.
Proof.
  rewrite broadcast2_same_length by (by rewrite !length_fmap).
  induction l as [|a l IH]; csimpl; [done|]. by f_equal.
Qed.

Lemma broadcast3_unsqueeze {X Z} (f : X → X → Z) (t : Tensor2 X) :
  broadcast3 f (unsqueeze_last t) (unsqueeze_axis1 t)
  = (λ row : list X, (λ x, f x <$> row) <$> row) <$> t.
Proof.
  unfold broadcast3, unsqueeze_last, unsqueeze_axis1.
  rewrite broadcast2_fmap_diag. apply list_fmap_ext; intros _ row _.
  rewrite broadcast2_singleton_r, <-list_fmap_compose. done.
Qed.

Lemma map3_unsqueeze_last {A B} (f : A → B) (t : Tensor2 A) :
  map3 f (unsqueeze_last t) = unsqueeze_last ((λ row : list A, f <$> row) <$> t).
Proof.
  unfold map3, unsqueeze_last. rewrite <-!list_fmap_compose.
  apply list_fmap_ext; intros _ row _. simpl. by rewrite <-!list_fmap_compose.
Qed.

Lemma map3_unsqueeze_axis1 {A B} (f : A → B) (t : Tensor2 A) :
  map3 f (unsqueeze_axis1 t) = unsqueeze_axis1 ((λ row : list A, f <$> row) <$> t).
Proof. unfold map3, unsqueeze_axis1. by rewrite <-!list_fmap_compose. Qed.

(** Closed form of [token_type_ids_to_mat]. *)
Lemma token_type_ids_to_mat_closed (token_type_ids : Tensor2 Z) :
  token_type_ids_to_mat token_type_ids
  = (λ row : list Z,
       (λ x, (λ y, (x =? cls_token_type_id)%Z || (y =? cls_token_type_id)%Z || (x =? y)%Z)
               <$> row) <$> row) <$> token_type_ids.
Proof.
  unfold token_type_ids_to_mat.
  rewrite map3_unsqueeze_last, map3_unsqueeze_axis1, !broadcast3_unsqueeze.
  unfold map3, broadcast3. rewrite <-!list_fmap_compose.
  rewrite broadcast2_fmap_diag, <-list_fmap_compose.
  apply list_fmap_ext; intros _ row _. simpl.
  rewrite <-!list_fmap_compose.
  rewrite broadcast2_fmap_diag, <-list_fmap_compose.
  apply list_fmap_ext; intros _ x _. simpl.
  rewrite <-!list_fmap_compose.
  rewrite broadcast2_fmap_diag, <-list_fmap_compose.
  apply list_fmap_ext; intros _ y _. simpl.
  by rewrite bool_to_int_lor, int_to_bool_lor.
Qed.

(** C7.  For every batch of integer token type ids, the entry [(b, i, j)] of
    [token_type_ids_to_mat] is true iff position [i] has the class-token type
    id 2, or position [j] has it, or positions [i] and [j] carry the same
    segment id; on the segment ids [2,0,0,1,1] row and column 0 are all true,
    positions 1-2 are true among themselves and false versus 3-4, and
    positions 3-4 are true among themselves. *)
Theorem token_type_ids_to_mat_spec :
  (∀ (token_type_ids : Tensor2 Z) (b i j : nat) (row : list Z) (x y : Z),
     token_type_ids !! b = Some row → row !! i = Some x → row !! j = Some y →
     (m ← token_type_ids_to_mat token_type_ids !! b; r ← m !! i; r !! j)
     = Some ((x =? 2)%Z || (y =? 2)%Z || (x =? y)%Z))
  ∧ token_type_ids_to_mat [[2; 0; 0; 1; 1]%Z] =
      [[[true; true; true; true; true];
        [true; true; true; false; false];
        [true; true; true; false; false];
        [true; false; false; true; true];
        [true; false; false; true; true]]].
Proof.
  split; [|reflexivity].
  intros ids b i j row x y Hb Hi Hj.
  rewrite token_type_ids_to_mat_closed.
  rewrite list_lookup_fmap, Hb. simpl.
  rewrite list_lookup_fmap, Hi. simpl.
  by rewrite list_lookup_fmap, Hj.
Qed.

Lemma token_type_ids_to_mat_spec_witness :
  (m ← token_type_ids_to_mat [[2; 0; 7]%Z; [5; 5; 2]%Z] !! 1; r ← m !! 0; r !! 1)
  = Some ((5 =? 2)%Z || (5 =? 2)%Z || (5 =? 5)%Z).
Proof.
  apply (proj1 token_type_ids_to_mat_spec [[2; 0; 7]%Z; [5; 5; 2]%Z] 1 0 1 [5; 5; 2]%Z);
    reflexivity.
Defined.

(** ** The class-token mask *)

Lemma lookup_F_pad2d_leading (n : nat) (t : Tensor2 Q) (i j : nat) :
  length t = n → Forall (λ row, length row = n) t → i < S n → j < S n →
  (r ← F_pad2d n t (1, 0, 1, 0) !! i; r !! j)
  = match i, j with
    | 0, _ | _, 0 => Some 0%Q
    | S i', S j' => r ← t !! i'; r !! j'
    end.
Proof.
  intros Hlen Hrows Hi Hj. unfold F_pad2d. simpl.
  destruct i as [|i]; simpl.
  - destruct j as [|j]; simpl; [done|].
    rewrite lookup_replicate_2 by lia. by destruct j.
  - rewrite app_nil_r, list_lookup_fmap.
    destruct (t !! i) as [row|] eqn:Hrow; simpl.
    + destruct j as [|j]; simpl; [done|]. by rewrite app_nil_r.
    + apply lookup_ge_None in Hrow. lia.
Qed.

Lemma shape_F_pad2d_leading (n : nat) (t : Tensor2 Q) :
  length t = n → Forall (λ row, length row = n) t →
  length (F_pad2d n t (1, 0, 1, 0)) = S n
  ∧ Forall (λ row, length row = S n) (F_pad2d n t (1, 0, 1, 0)).
Proof.
  intros Hlen Hrows. unfold F_pad2d. simpl. rewrite app_nil_r. split.
  - by rewrite length_fmap, Hlen.
  - constructor.
    + simpl. by rewrite length_replicate, Nat.add_0_r.
    + apply Forall_fmap. rewrite Forall_forall in Hrows |- *.
      intros row Hin. specialize (Hrows row Hin).
      simpl. by rewrite length_app, Hrows, Nat.add_0_r.
Qed.

Lemma lookup_new_ones (rows cols i j : nat) :
  i < rows → j < cols → (r ← new_ones rows cols !! i; r !! j) = Some 1%Q.
Proof.
  intros Hi Hj. unfold new_ones. rewrite lookup_replicate_2 by done. simpl.
  by rewrite lookup_replicate_2.
Qed.

(** C8 (amended).  For every sequence length [seq_len >= 1], when
    [separate_cls] is enabled and the call of [get_position_embeds] that
    [init_attention_inputs] makes first returns, [init_attention_inputs]
    produces a class-token mask of shape [[seq_len, seq_len]] that is a
    [[seq_len-1, seq_len-1]] block of ones padded with a leading row and a
    leading column of zeros; when that call raises, [init_attention_inputs]
    raises its exception and builds no mask. *)
Theorem init_attention_inputs_cls_mask {P} (config : FunnelConfig) (position_embeds : P)
    (n : nat) (mask : option (Tensor2 Q)) (token_type_ids : option (Tensor2 Z)) :
  separate_cls config = true → 1 ≤ n →
  (∃ inputs m,
     snd (init_attention_inputs config (inr position_embeds) n mask token_type_ids)
     = inr (position_embeds, inputs)
     ∧ cls_mask inputs = Some m
     ∧ length m = n ∧ Forall (λ row, length row = n) m
     ∧ ∀ i j, i < n → j < n →
         (r ← m !! i; r !! j) = Some (if (i =? 0) || (j =? 0) then 0%Q else 1%Q))
  ∧ ∀ e, snd (init_attention_inputs (P:=P) config (inl e) n mask token_type_ids) = inl e.
Proof.
  intros Hsep Hn. split; [|done]. destruct n as [|n]; [lia|].
  unfold init_attention_inputs. rewrite Hsep.
  eexists _, (F_pad2d n (new_ones n n) (1, 0, 1, 0)).
  split; [reflexivity|]. split; [reflexivity|].
  assert (Hshape : length (new_ones n n) = n
                   ∧ Forall (λ row, length row = n) (new_ones n n)).
  { unfold new_ones. rewrite length_replicate. split; [done|].
    apply Forall_replicate. by rewrite length_replicate. }
  destruct Hshape as [Hlen Hrows].
  destruct (shape_F_pad2d_leading n _ Hlen Hrows) as [Hlen' Hrows'].
  split; [done|]. split; [done|].
  intros i j Hi Hj. rewrite lookup_F_pad2d_leading by done.
  destruct i as [|i]; [done|]. destruct j as [|j]; [done|].
  simpl. apply lookup_new_ones; lia.
Qed.

Lemma init_attention_inputs_cls_mask_witness :
  (∃ inputs m,
     snd (init_attention_inputs config_small (inr tt) 3 None None) = inr (tt, inputs)
     ∧ cls_mask inputs = Some m
     ∧ length m = 3 ∧ Forall (λ row, length row = 3) m
     ∧ ∀ i j, i < 3 → j < 3 →
         (r ← m !! i; r !! j) = Some (if (i =? 0) || (j =? 0) then 0%Q else 1%Q))
  ∧ ∀ e, snd (init_attention_inputs (P:=unit) config_small (inl e) 3 None None) = inl e.
Proof.
  apply (init_attention_inputs_cls_mask config_small tt 3 None None); [reflexivity | lia].
Defined.

(** C8 as stated fails: for [seq_len = 2] the mask is [[0,0],[0,1]], not the
    block of ones padded with a leading row and column of ones. *)
Lemma init_attention_inputs_cls_mask_counterexample :
  ∃ inputs,
    snd (init_attention_inputs config_small (inr tt) 2 None None) = inr (tt, inputs)
    ∧ cls_mask inputs = Some [[0; 0]; [0; 1]]%Q
    ∧ cls_mask inputs
      ≠ Some (replicate 1 (replicate 2 1%Q)
                ++ ((λ row, replicate 1 1%Q ++ row) <$> new_ones 1 1)).
Proof. eexists. split; [reflexivity|]. split; [reflexivity | discriminate]. Qed.

(** ** Upsampling *)

(** C10.  [upsample] with [stride = 1] returns [x] unchanged, whatever the
    target length and the [separate_cls] and [truncate_seq] flags, also when
    the sequence length of [x] differs from [target_len]. *)
Theorem upsample_stride_1 {V} (zero : V) (x : Tensor2 V) (target_len : nat)
    (separate_cls truncate_seq : bool) :
  upsample zero x 1 target_len separate_cls truncate_seq = inr x.
Proof. reflexivity. Qed.

(** ** [pool_tensor] on tuples and lists *)

Lemma mapR_cons_error {A B} (f : A → Result B) (x : A) (l : list A) (e : Error) :
  f x = inl e → mapR f (x :: l) = inl e.
Proof. intros Hx. simpl. by rewrite Hx. Qed.

(** C6 (the code at its failing inputs).  On a non-empty tuple or list
    [pool_tensor] calls itself on the same tuple or list for its first
    element, so that whatever the recursion limit the call ends in
    RecursionError and returns no sequence. *)
Theorem pool_tensor_sequence_diverges (fuel : nat) (config : FunnelConfig)
    (x : PyTensor) (l : list PyTensor) (mode : string) (stride : nat) :
  pool_tensor fuel config (PTuple (x :: l)) mode stride = inl RecursionError
  ∧ pool_tensor fuel config (PList (x :: l)) mode stride = inl RecursionError.
Proof.
  induction fuel as [|fuel [IHt IHl]]; [done|]. split.
  - change (pool_tensor (S fuel) config (PTuple (x :: l)) mode stride)
      with (let* r := mapR (λ _ : PyTensor,
                              pool_tensor fuel config (PTuple (x :: l)) mode stride) (x :: l) in
            inr (PTuple r)).
    by rewrite (mapR_cons_error _ x l RecursionError IHt).
  - change (pool_tensor (S fuel) config (PList (x :: l)) mode stride)
      with (let* r := mapR (λ _ : PyTensor,
                              pool_tensor fuel config (PList (x :: l)) mode stride) (x :: l) in
            inr (PList r)).
    by rewrite (mapR_cons_error _ x l RecursionError IHl).
Qed.

(** ** Relative positions *)

Lemma ceil_div_neg_step (a s : Z) :
  (1 ≤ s)%Z → (- ((a + 1) / - s) = a / s + 1)%Z.
Proof.
  intros Hs.
  replace ((a + 1) / - s)%Z with ((- (a + 1)) / s)%Z
    by (rewrite <-(Z.div_opp_opp (- (a + 1)) s) by lia; f_equal; lia).
  pose proof (Z.div_mod a s ltac:(lia)) as Hdm.
  pose proof (Z.mod_pos_bound a s ltac:(lia)) as Hmod.
  assert (Hq : ((- (a + 1)) / s = - (a / s) - 1)%Z).
  { symmetry. apply Z.div_unique_pos with (r := (s - a mod s - 1)%Z); lia. }
  lia.
Qed.

Lemma ops_arange_descending (start stop stride : Z) :
  (1 ≤ stride)%Z →
  ops_arange start (stop - 1) (- stride)
  = Some ((λ k : nat, (start - Z.of_nat k * stride)%Z)
            <$> seq 0 (Z.to_nat ((start - stop) / stride + 1))).
Proof.
  intros Hs. unfold ops_arange.
  destruct (Z.eqb_spec (- stride) 0) as [|_]; [lia|].
  replace (start - (stop - 1))%Z with (start - stop + 1)%Z by lia.
  rewrite ceil_div_neg_step by done.
  f_equal. apply list_fmap_ext; intros _ k _. lia.
Qed.

Lemma head_le_last (l : list Z) (x y : Z) :
  Sorted Z.lt l → list.head l = Some x → list.last l = Some y → (x ≤ y)%Z.
Proof.
  intros Hsorted Hhead Hlast.
  apply (Sorted_StronglySorted Z.lt _) in Hsorted.
  destruct l as [|x' l]; simplify_eq/=.
  apply StronglySorted_inv in Hsorted as [_ Hall].
  rewrite last_cons in Hlast.
  destruct (list.last l) as [z|] eqn:Hz; simplify_eq/=; [|lia].
  apply last_Some_elem_of in Hz.
  rewrite Forall_forall in Hall. specialize (Hall _ Hz). lia.
Qed.

(** C2 (amended).  For every strictly increasing integer position vector
    [pos], every [stride >= 1], every non-empty [pooled_pos] (defaulting to
    [pos]) and every [shift >= 1] such that the positions, the stride and
    the distances computed from them are 64-bit integers, [relative_pos]
    returns the descending
    arithmetic sequence with step [-stride] that starts at the max distance
    [(pooled_pos[0]-pos[0]) + stride*shift*len(pooled_pos)] and holds every
    term not below the min distance [pooled_pos[0]-pos[-1]] (its last term is
    the min distance when [stride] divides [pos[-1]-pos[0]]); it has
    [shift*len(pooled_pos) + floor((pos[-1]-pos[0])/stride) + 1] elements,
    which is more than [len(pooled_pos)]. *)
Theorem relative_pos_spec (pos : list Z) (stride : Z) (pooled_pos : option (list Z))
    (shift : Z) (pos0 pos_last pooled0 : Z) :
  Sorted Z.lt pos → (1 ≤ stride)%Z → (1 ≤ shift)%Z →
  list.head pos = Some pos0 → list.last pos = Some pos_last →
  list.head (default pos pooled_pos) = Some pooled0 →
  relative_pos_int64 pos stride (default pos pooled_pos) shift pooled0 pos0 pos_last →
  let len := Z.of_nat (length (default pos pooled_pos)) in
  let max_dist := (pooled0 - pos0 + stride * shift * len)%Z in
  let min_dist := (pooled0 - pos_last)%Z in
  let n := (shift * len + (pos_last - pos0) / stride + 1)%Z in
  ∃ r,
    relative_pos pos stride pooled_pos shift = inr r
    ∧ r = (λ k : nat, (max_dist - Z.of_nat k * stride)%Z) <$> seq 0 (Z.to_nat n)
    ∧ Z.of_nat (length r) = n
    ∧ (len < n)%Z
    ∧ (min_dist ≤ max_dist - (n - 1) * stride)%Z
    ∧ (max_dist - n * stride < min_dist)%Z
    ∧ (((pos_last - pos0) mod stride = 0)%Z →
       (max_dist - (n - 1) * stride = min_dist)%Z).
Proof.
  intros Hsorted Hstride Hshift Hpos0 Hlast Hpooled0 _ len max_dist min_dist n.
  pose proof (head_le_last pos pos0 pos_last Hsorted Hpos0 Hlast) as Hle.
  assert (Hq : (0 ≤ (pos_last - pos0) / stride)%Z) by (apply Z.div_pos; lia).
  assert (Hlen : (1 ≤ len)%Z).
  { subst len. destruct (default pos pooled_pos); simplify_eq/=. lia. }
  assert (Hn : ((max_dist - min_dist) / stride + 1 = n)%Z).
  { subst max_dist min_dist n.
    replace (pooled0 - pos0 + stride * shift * len - (pooled0 - pos_last))%Z
      with ((pos_last - pos0) + (shift * len) * stride)%Z by lia.
    rewrite Z.div_add by lia. lia. }
  assert (Hn_pos : (1 ≤ n)%Z) by nia.
  eexists. split; [|split; [reflexivity|]].
  - unfold relative_pos. rewrite Hpooled0, Hpos0, Hlast.
    fold len.
    replace (pooled0 - pos0 + shift * len * stride)%Z with max_dist
      by (subst max_dist; lia).
    fold min_dist. rewrite ops_arange_descending by done. by rewrite Hn.
  - rewrite length_fmap, length_seq, Z2Nat.id by lia.
    split; [done|]. split; [nia|].
    pose proof (Z.div_mod (pos_last - pos0) stride ltac:(lia)) as Hdm.
    pose proof (Z.mod_pos_bound (pos_last - pos0) stride ltac:(lia)) as Hmod.
    subst max_dist min_dist n. split; [nia|]. split; [nia|].
    intros Hdiv. rewrite Hdiv in Hdm. nia.
Qed.

Lemma relative_pos_spec_witness :
  ∃ r,
    relative_pos [0; 1; 2; 3; 4]%Z 1 (Some [-1; 1; 3]%Z) 2 = inr r
    ∧ r = (λ k : nat, (5 - Z.of_nat k * 1)%Z) <$> seq 0 11
    ∧ Z.of_nat (length r) = 11%Z
    ∧ (3 < 11)%Z
    ∧ (-5 ≤ 5 - (11 - 1) * 1)%Z
    ∧ (5 - 11 * 1 < -5)%Z
    ∧ (((4 - 0) mod 1 = 0)%Z → (5 - (11 - 1) * 1 = -5)%Z).
Proof.
  apply (relative_pos_spec [0; 1; 2; 3; 4]%Z 1 (Some [-1; 1; 3]%Z) 2 0 4 (-1));
    try reflexivity; try lia.
  - repeat constructor.
  - unfold relative_pos_int64, int64. simpl.
    repeat split; repeat constructor; lia.
Defined.

(** C2 as stated fails: on [pos = [0,1,2]] with stride 1 and shift 1 the
    result has 6 elements, not [len(pooled_pos) = 3]. *)
Lemma relative_pos_counterexample :
  relative_pos [0; 1; 2]%Z 1 None 1 = inr [3; 2; 1; 0; -1; -2]%Z
  ∧ length [3; 2; 1; 0; -1; -2]%Z ≠ length [0; 1; 2]%Z.
Proof. split; [reflexivity | discriminate]. Qed.

(** ** The input check of the models *)

Lemma nue_ret {A} (a : A) : no_usage_error (ret a).
Proof. by intros w msg _. Qed.

Lemma nue_lift {A} (r : Result A) : not_usage_error r → no_usage_error (lift r).
Proof. intros Hr w msg. apply Hr. Qed.

Lemma nue_raise {A} (e : Error) :
  (∀ msg, usage_message msg → e ≠ ValueError msg) → no_usage_error (raise (A:=A) e).
Proof. intros He w msg Hmsg [=]. by eapply He. Qed.

Lemma nue_bind {A B} (m : M A) (k : A → M B) :
  no_usage_error m → (∀ a, no_usage_error (k a)) → no_usage_error (bind m k).
Proof.
  intros Hm Hk w msg Hmsg. unfold bind. specialize (Hm w msg Hmsg).
  destruct (m w) as [w' [e|a]]; simpl in *; [|by apply Hk].
  intros [= ->]. by apply Hm.
Qed.

Lemma nue_log (ev : Event) : no_usage_error (log ev).
Proof. by intros w msg _. Qed.

Lemma nue_get_structure (self : StructRef) : no_usage_error (get_structure self).
Proof. by intros w msg _. Qed.

Lemma nue_set_structure (self : StructRef) s : no_usage_error (set_structure self s).
Proof. by intros w msg _. Qed.

Lemma nue_for_each {X L} (l : list X) (body : L → X → M L) (loc : L) :
  (∀ loc x, no_usage_error (body loc x)) → no_usage_error (for_each l body loc).
Proof.
  intros Hbody. revert loc. induction l as [|x l IH]; intros loc; simpl.
  - apply nue_ret.
  - apply nue_bind; [apply Hbody | apply IH].
Qed.

Lemma nue_if {A} (b : bool) (m1 m2 : M A) :
  no_usage_error m1 → no_usage_error m2 → no_usage_error (if b then m1 else m2).
Proof. by destruct b. Qed.

Lemma pool_tensor_seq_len_nue config n mode stride :
  not_usage_error (pool_tensor_seq_len config n mode stride).
Proof.
  intros msg _. unfold pool_tensor_seq_len.
  repeat (case_match; try done).
Qed.

Lemma upsample_seq_len_nue n stride target sep trunc :
  not_usage_error (upsample_seq_len n stride target sep trunc).
Proof.
  intros msg _. unfold upsample_seq_len.
  repeat (case_match; simpl; try done).
Qed.

Lemma broadcast_len_nue a b : not_usage_error (broadcast_len a b).
Proof. intros msg _. unfold broadcast_len. repeat (case_match; try done). Qed.

Lemma decoder_stride_nue config : not_usage_error (decoder_stride config).
Proof. intros msg _. unfold decoder_stride. by case_match. Qed.

Create HintDb nue.
#[local] Hint Resolve nue_ret nue_lift nue_bind nue_log nue_get_structure
  nue_set_structure nue_for_each nue_if pool_tensor_seq_len_nue
  upsample_seq_len_nue broadcast_len_nue decoder_stride_nue : nue.

Ltac nue_step :=
  first
    [ progress intros
    | apply nue_bind | apply nue_for_each | apply nue_if
    | apply nue_ret | apply nue_log | apply nue_get_structure
    | apply nue_set_structure
    | apply nue_raise; intros ? [-> | ->]; discriminate
    | apply nue_lift; solve [auto with nue]
    | case_match ].
Ltac nue := repeat nue_step.

Lemma double_pooling_mult_nue self : no_usage_error (double_pooling_mult self).
Proof. unfold double_pooling_mult. nue. Qed.

Lemma FunnelEncoder_forward_nue config n ohs :
  no_usage_error (FunnelEncoder_forward config n ohs).
Proof.
  unfold FunnelEncoder_forward, init_attention_inputs_shape, encoder_block,
    encoder_layer_loop, encoder_repeat, encoder_layer, pre_attention_pooling,
    post_attention_pooling.
  nue; apply double_pooling_mult_nue.
Qed.

Lemma FunnelDecoder_forward_nue config a b ohs :
  no_usage_error (FunnelDecoder_forward config a b ohs).
Proof.
  unfold FunnelDecoder_forward, init_attention_inputs_shape. nue.
Qed.

(** C9.  [FunnelModel.forward] and [FunnelBaseModel.forward] raise a
    ValueError when both [input_ids] and [inputs_embeds] are supplied and
    when neither is; the error is raised before any embedding or encoder
    computation (no sub-module call is added to the trace) and the state of
    the model is unchanged; when exactly one of the two is supplied neither
    of the two usage errors is raised. *)
Theorem forward_input_check (config : FunnelConfig) (output_hidden_states : bool)
    (w : World) (ids embeds : nat * nat) :
  FunnelModel_forward config (Some ids) (Some embeds) output_hidden_states w
    = (w, inl (ValueError
                 "You cannot specify both input_ids and inputs_embeds at the same time"))
  ∧ FunnelModel_forward config None None output_hidden_states w
    = (w, inl (ValueError "You have to specify either input_ids or inputs_embeds"))
  ∧ FunnelBaseModel_forward config (Some ids) (Some embeds) output_hidden_states w
    = (w, inl (ValueError
                 "You cannot specify both input_ids and inputs_embeds at the same time"))
  ∧ FunnelBaseModel_forward config None None output_hidden_states w
    = (w, inl (ValueError "You have to specify either input_ids or inputs_embeds"))
  ∧ (∀ msg, usage_message msg →
       snd (FunnelModel_forward config (Some ids) None output_hidden_states w)
         ≠ inl (ValueError msg)
       ∧ snd (FunnelModel_forward config None (Some embeds) output_hidden_states w)
         ≠ inl (ValueError msg)
       ∧ snd (FunnelBaseModel_forward config (Some ids) None output_hidden_states w)
         ≠ inl (ValueError msg)
       ∧ snd (FunnelBaseModel_forward config None (Some embeds) output_hidden_states w)
         ≠ inl (ValueError msg)).
Proof.
  repeat split; try reflexivity.
  - revert w msg H. change (no_usage_error
      (FunnelModel_forward config (Some ids) None output_hidden_states)).
    unfold FunnelModel_forward, check_inputs, FunnelEmbeddings_forward.
    repeat first [apply FunnelEncoder_forward_nue | apply FunnelDecoder_forward_nue | nue_step].
  - revert w msg H. change (no_usage_error
      (FunnelModel_forward config None (Some embeds) output_hidden_states)).
    unfold FunnelModel_forward, check_inputs, FunnelEmbeddings_forward.
    repeat first [apply FunnelEncoder_forward_nue | apply FunnelDecoder_forward_nue | nue_step].
  - revert w msg H. change (no_usage_error
      (FunnelBaseModel_forward config (Some ids) None output_hidden_states)).
    unfold FunnelBaseModel_forward, check_inputs, FunnelEmbeddings_forward.
    repeat first [apply FunnelEncoder_forward_nue | nue_step].
  - revert w msg H. change (no_usage_error
      (FunnelBaseModel_forward config None (Some embeds) output_hidden_states)).
    unfold FunnelBaseModel_forward, check_inputs, FunnelEmbeddings_forward.
    repeat first [apply FunnelEncoder_forward_nue | nue_step].
Qed.

(** ** [pool_tensor] on a single tensor *)

Lemma zip_with_fmap_diag {A B C D} (f : B → C → D) (g : A → B) (h : A → C) (l : list A) :
  zip_with f (g <$> l) (h <$> l) = (λ a, f (g a) (h a)) <$> l.
Proof. induction l as [|a l IH]; csimpl; [done|]. by f_equal. Qed.

Lemma cat_cls_separate {A} (config : FunnelConfig) (t : Tensor2 A) :
  separate_cls config = true → truncate_seq config = false →
  cat_cls config t = (λ row : list A, take 1 row ++ row) <$> t.
Proof.
  intros Hsep Htrunc. unfold cat_cls. rewrite Hsep, Htrunc.
  rewrite <-(list_fmap_id t) at 2. apply zip_with_fmap_diag.
Qed.

(** [pool_tensor] with mode "mean" on a tensor [[B, T]], row by row. *)
Lemma pool_tensor_mean_rank2 (fuel : nat) (config : FunnelConfig) (t : Tensor2 Q) (k : nat) :
  k ≠ 0 →
  pool_tensor (S fuel) config (PTensor2 t) "mean" k
  = inr (PTensor2
      ((λ row : list Q, (λ r : list Q, hd 0%Q r) <$>
          (mean_rows <$> windows k ((λ x, [x]) <$> row))) <$> cat_cls config t)).
Proof.
  intros Hk. simpl. unfold pool_mode, F_avg_pool2d, pool2d. simpl.
  destruct (decide (k = 0)) as [|_]; [done|]. simpl.
  by rewrite <-!list_fmap_compose.
Qed.

(** [pool_tensor] with mode "mean" on a tensor [[B, T, H]], row by row. *)
Lemma pool_tensor_mean_rank3 (fuel : nat) (config : FunnelConfig) (t : Tensor3 Q) (k : nat) :
  k ≠ 0 →
  pool_tensor (S fuel) config (PTensor3 t) "mean" k
  = inr (PTensor3 ((λ row : Tensor2 Q, mean_rows <$> windows k row) <$> cat_cls config t)).
Proof.
  intros Hk. simpl. unfold pool_mode, F_avg_pool2d, pool2d. simpl.
  destruct (decide (k = 0)) as [|_]; [done|]. simpl.
  by rewrite <-!list_fmap_compose.
Qed.

Lemma mean_rows_twice (v : list Q) : Forall2 Qeq (mean_rows [v; v]) v.
Proof.
  unfold mean_rows. simpl. induction v as [|x v IH]; csimpl; constructor; [|done].
  change (inject_Z 2) with 2%Q. field.
Qed.

(** C5 (amended).  For every single tensor of sequence length 5 (shape
    [[batch, 5]] or [[batch, 5, H]]) with [separate_cls=True] and
    [truncate_seq=False], [pool_tensor] with mode "mean" and stride 2 returns
    a tensor of sequence length 3 whose position-0 entry equals the input's
    position-0 entry (the mean of the class token with its own copy) and
    whose other two entries are the means of the input positions 1,2 and of
    the input positions 3,4: the last window covers the two input indices 3
    and 4, no window is padded. *)
Theorem pool_tensor_len5 (fuel : nat) (config : FunnelConfig) :
  separate_cls config = true → truncate_seq config = false →
  (∀ t : Tensor2 Q, Forall (λ row, length row = 5) t →
     ∃ t', pool_tensor (S fuel) config (PTensor2 t) "mean" 2 = inr (PTensor2 t')
       ∧ length t' = length t
       ∧ Forall (λ row, length row = 3) t'
       ∧ ∀ b x0 x1 x2 x3 x4, t !! b = Some [x0; x1; x2; x3; x4] →
           ∃ y0 y1 y2, t' !! b = Some [y0; y1; y2]
             ∧ (y0 == x0)%Q ∧ (y1 == (x1 + x2) / 2)%Q ∧ (y2 == (x3 + x4) / 2)%Q)
  ∧ (∀ t : Tensor3 Q, Forall (λ row, length row = 5) t →
     ∃ t', pool_tensor (S fuel) config (PTensor3 t) "mean" 2 = inr (PTensor3 t')
       ∧ length t' = length t
       ∧ Forall (λ row, length row = 3) t'
       ∧ ∀ b v0 v1 v2 v3 v4, t !! b = Some [v0; v1; v2; v3; v4] →
           ∃ y0 y1 y2, t' !! b = Some [y0; y1; y2]
             ∧ Forall2 Qeq y0 v0 ∧ y1 = mean_rows [v1; v2] ∧ y2 = mean_rows [v3; v4]).
Proof.
  intros Hsep Htrunc. split.
  - intros t Hrows. eexists. split; [by apply pool_tensor_mean_rank2|].
    rewrite cat_cls_separate, <-list_fmap_compose by done.
    split; [by rewrite length_fmap|]. split.
    + apply Forall_fmap. rewrite Forall_forall in Hrows |- *.
      intros row Hin. specialize (Hrows row Hin).
      destruct row as [|x0 [|x1 [|x2 [|x3 [|x4 [|x5 row]]]]]]; simplify_eq/=. done.
    + intros b x0 x1 x2 x3 x4 Hb. rewrite list_lookup_fmap, Hb.
      eexists _, _, _. split; [reflexivity|]. simpl.
      change (inject_Z 2) with 2%Q. split; [field|]. split; reflexivity.
  - intros t Hrows. eexists. split; [by apply pool_tensor_mean_rank3|].
    rewrite cat_cls_separate, <-list_fmap_compose by done.
    split; [by rewrite length_fmap|]. split.
    + apply Forall_fmap. rewrite Forall_forall in Hrows |- *.
      intros row Hin. specialize (Hrows row Hin).
      destruct row as [|x0 [|x1 [|x2 [|x3 [|x4 [|x5 row]]]]]]; simplify_eq/=. done.
    + intros b v0 v1 v2 v3 v4 Hb. rewrite list_lookup_fmap, Hb.
      eexists _, _, _. split; [reflexivity|].
      split; [apply mean_rows_twice|]. done.
Qed.

Lemma pool_tensor_len5_witness :
  ∃ t', pool_tensor 1 config_small (PTensor2 [[7; 0; 0; 1; 2]%Q]) "mean" 2
          = inr (PTensor2 t')
    ∧ length t' = 1
    ∧ Forall (λ row, length row = 3) t'
    ∧ ∀ b x0 x1 x2 x3 x4, [[7; 0; 0; 1; 2]%Q] !! b = Some [x0; x1; x2; x3; x4] →
        ∃ y0 y1 y2, t' !! b = Some [y0; y1; y2]
          ∧ (y0 == x0)%Q ∧ (y1 == (x1 + x2) / 2)%Q ∧ (y2 == (x3 + x4) / 2)%Q.
Proof.
  apply (proj1 (pool_tensor_len5 0 config_small eq_refl eq_refl) [[7; 0; 0; 1; 2]%Q]).
  repeat constructor.
Defined.

(** C5 as stated fails: on the row [0,0,0,1,2] the last output entry is
    3/2, the mean of the inputs at positions 3 and 4, not the value 2 of the
    window that would cover position 4 alone. *)
Lemma pool_tensor_len5_counterexample :
  pool_tensor 1 config_small (PTensor2 [[0; 0; 0; 1; 2]%Q]) "mean" 2
    = inr (PTensor2 [[0 # 2; 0 # 2; 3 # 2]%Q])
  ∧ ¬ (3 # 2 == 2)%Q.
Proof. split; [reflexivity | discriminate]. Qed.

(** ** Row-major regrouping *)

Section Chunks.
Context {A : Type}.
Implicit Types (l : list A) (rows : list (list A)).

Lemma length_chunks n m l : length (chunks n m l) = n.
Proof. revert l. induction n as [|n IH]; intros l; simpl; [done|]. by rewrite IH. Qed.

Lemma lookup_chunks n m l i :
  i < n → chunks n m l !! i = Some (take m (drop (i * m) l)).
Proof.
  revert l i. induction n as [|n IH]; intros l [|i] Hi; simpl; try lia; [done|].
  rewrite IH by lia. by rewrite drop_drop, (Nat.add_comm m).
Qed.

Lemma concat_chunks n m l : length l = n * m → concat (chunks n m l) = l.
Proof.
  revert l. induction n as [|n IH]; intros l Hlen; simpl.
  - symmetry. by apply nil_length_inv.
  - rewrite IH by (rewrite length_drop; lia). apply take_drop.
Qed.

Lemma chunks_concat n m rows :
  length rows = n → Forall (λ r, length r = m) rows → chunks n m (concat rows) = rows.
Proof.
  revert n. induction rows as [|r rows IH]; intros n Hn Hrows; simplify_eq/=; [done|].
  apply Forall_cons_1 in Hrows as [Hr Hrows].
  rewrite take_app_length', drop_app_length' by done. f_equal. by apply IH.
Qed.

Lemma drop_chunks k n m l : drop k (chunks n m l) = chunks (n - k) m (drop (k * m) l).
Proof.
  revert n l. induction k as [|k IH]; intros n l; simpl.
  - by rewrite Nat.sub_0_r.
  - destruct n as [|n]; simpl; [done|].
    rewrite IH. by rewrite drop_drop, (Nat.add_comm m).
Qed.

Lemma chunks_chunks n r c l :
  chunks n r (chunks (n * r) c l) = (λ x, chunks r c x) <$> chunks n (r * c) l.
Proof.
  revert l. induction n as [|n IH]; intros l; csimpl; [done|]. f_equal.
  - clear IH. generalize (n * r). intros k. revert l k.
    induction r as [|r IH]; intros l k; simpl; [done|]. f_equal.
    + rewrite take_take. f_equal; lia.
    + rewrite (IH (drop c l) k). f_equal.
      rewrite take_drop_commute. f_equal; lia.
  - rewrite <-IH. rewrite drop_chunks. f_equal.
    replace (r + n * r - r) with (n * r) by lia.
    rewrite (Nat.mul_comm r c). done.
Qed.

Lemma concat_concat (x : list (list (list A))) :
  concat (concat x) = concat ((λ m, concat m) <$> x).
Proof.
  induction x as [|m x IH]; csimpl; [done|]. by rewrite concat_app, IH.
Qed.

Lemma length_concat_rect n m rows :
  length rows = n → Forall (λ r, length r = m) rows → length (concat rows) = n * m.
Proof.
  revert n. induction rows as [|r rows IH]; intros n Hn Hrows; simplify_eq/=; [done|].
  apply Forall_cons_1 in Hrows as [Hr Hrows].
  rewrite length_app, Hr. f_equal. by apply IH.
Qed.

Lemma lookup_concat_rect m rows i c :
  Forall (λ r, length r = m) rows → c < m →
  concat rows !! (i * m + c) = (r ← rows !! i; r !! c).
Proof.
  intros Hrows Hc. revert i. induction Hrows as [|r rows Hr Hrows IH]; intros i; simpl.
  - by rewrite !lookup_nil.
  - destruct i as [|i]; simpl.
    + rewrite lookup_app_l by lia. done.
    + rewrite lookup_app_r by lia. rewrite <-IH. f_equal. lia.
Qed.
End Chunks.

Lemma chunks_fmap {A B} (f : A → B) n m (l : list A) :
  chunks n m (f <$> l) = (λ x : list A, f <$> x) <$> chunks n m l.
Proof.
  revert l. induction n as [|n IH]; intros l; csimpl; [done|].
  by rewrite fmap_take, <-fmap_drop, IH.
Qed.

(** ** The relative-shift gather *)

Section Gather.
Context {A : Type}.
Implicit Types (t : Tensor4 A) (mat : Tensor2 A).

Lemma has_shape4_concat t b h s m :
  has_shape4 t b h s m →
  length (concat t) = b * h ∧ Forall (λ mat, has_shape2 mat s m) (concat t).
Proof.
  intros [Hlen Hall]. revert b Hlen.
  induction Hall as [|x t [Hx Hmat] Hall IH]; intros b Hlen; simplify_eq/=; [done|].
  destruct (IH _ eq_refl) as [IHlen IHall].
  rewrite length_app, IHlen. split; [done|]. by apply Forall_app.
Qed.

Lemma has_shape4_chunks t b h s m : has_shape4 t b h s m → chunks b h (concat t) = t.
Proof.
  intros [Hlen Hall]. apply chunks_concat; [done|].
  eapply list.Forall_impl; [exact Hall|]. by intros x [? _].
Qed.

(** Blockwise extensionality of a map over the matrices of [t]. *)
Lemma fmap_matrices_ext {B} (f g : Tensor2 A → B) t b h s m :
  has_shape4 t b h s m →
  (∀ mat, has_shape2 mat s m → f mat = g mat) →
  (λ x : Tensor3 A, f <$> x) <$> t = (λ x : Tensor3 A, g <$> x) <$> t.
Proof.
  intros [_ Hall] Hfg. induction Hall as [|x t [_ Hmat] Hall IH]; csimpl; [done|].
  f_equal; [|done]. clear IH Hall.
  induction Hmat as [|mat x Hm Hmat IH]; csimpl; [done|]. f_equal; auto.
Qed.

Lemma fmap_matrices_shape (f : Tensor2 A → Tensor2 A) t b h s m s' m' :
  has_shape4 t b h s m →
  (∀ mat, has_shape2 mat s m → has_shape2 (f mat) s' m') →
  has_shape4 ((λ x : Tensor3 A, f <$> x) <$> t) b h s' m'.
Proof.
  intros [Hlen Hall] Hf. split; [by rewrite length_fmap|].
  apply Forall_fmap. eapply list.Forall_impl; [exact Hall|].
  intros x [Hx Hmat]. simpl. split; [by rewrite length_fmap|].
  apply Forall_fmap. eapply list.Forall_impl; [exact Hmat|]. intros mat. apply Hf.
Qed.

Lemma has_shape2_chunks r c (l : list A) :
  length l = r * c → has_shape2 (chunks r c l) r c.
Proof.
  intros Hlen. split; [apply length_chunks|].
  apply Forall_lookup_2. intros i x Hi.
  assert (i < r) by (apply lookup_lt_Some in Hi; by rewrite length_chunks in Hi).
  rewrite lookup_chunks in Hi by done. simplify_eq.
  rewrite length_take, length_drop. nia.
Qed.

Lemma shape4_has_shape4 t b h s m :
  has_shape4 t b h s m → 0 < b → 0 < h → 0 < s → shape4 t = (b, h, s, m).
Proof.
  intros [Hlen Hall] Hb Hh Hs. unfold shape4.
  destruct Hall as [|x t [Hx Hmat] _]; simpl in *; [lia|].
  destruct Hmat as [|mat x [Hmat Hrows] _]; simpl in *; [lia|].
  destruct Hrows as [|row mat Hrow _]; simpl in *; [lia|].
  by rewrite Hlen, Hx, Hmat, Hrow.
Qed.

(** [ops.reshape] to a shape with the same two leading sizes regroups each
    matrix on its own. *)
Lemma ops_reshape4_blockwise t b h s m r c :
  has_shape4 t b h s m → r * c = s * m →
  ops_reshape4 t b h r c
  = inr ((λ x : Tensor3 A, (λ mat, chunks r c (concat mat)) <$> x) <$> t).
Proof.
  intros Ht Hrc. unfold ops_reshape4, flatten4.
  destruct (has_shape4_concat _ _ _ _ _ Ht) as [Hlen Hmats].
  assert (Hflat : Forall (λ l : list A, length l = r * c)
                    ((λ mat, concat mat) <$> concat t)).
  { apply Forall_fmap. eapply list.Forall_impl; [exact Hmats|].
    intros mat [Hs Hrows]. simpl. rewrite Hrc. by apply length_concat_rect. }
  assert (Hlen' : length ((λ mat, concat mat) <$> concat t) = b * h)
    by (by rewrite length_fmap).
  rewrite concat_concat.
  rewrite (length_concat_rect (b * h) (r * c) _ Hlen' Hflat).
  destruct (decide (b * h * (r * c) = b * h * r * c)) as [_|]; [|lia].
  f_equal. rewrite (chunks_chunks (b * h) r c).
  rewrite (chunks_concat (b * h) (r * c) _ Hlen' Hflat).
  rewrite <-list_fmap_compose, chunks_fmap. by rewrite (has_shape4_chunks _ _ _ _ _ Ht).
Qed.

(** Closed form of the gather: each matrix is flattened, loses its first
    [shift * seq_len] entries, and is cut into rows of
    [max_rel_len - shift] entries of which [context_len] are kept. *)
Lemma relative_shift_gather_closed t b h s m context_len shift :
  has_shape4 t b h s m → 0 < b → 0 < h → 0 < s → shift ≤ m →
  _relative_shift_gather t context_len shift
  = inr ((λ x : Tensor3 A,
            (λ mat, (λ r : list A, take context_len r)
                      <$> chunks s (m - shift) (drop (shift * s) (concat mat))) <$> x)
           <$> t).
Proof.
  intros Ht Hb Hh Hs Hshift. unfold _relative_shift_gather.
  rewrite (shape4_has_shape4 _ _ _ _ _ Ht) by done.
  rewrite (ops_reshape4_blockwise _ _ _ _ _ _ _ Ht) by lia. simpl.
  destruct (decide (m < shift)) as [|_]; [lia|].
  rewrite <-list_fmap_compose.
  erewrite (list_fmap_ext _ (λ x : Tensor3 A,
              (λ mat, drop shift (chunks m s (concat mat))) <$> x))
    by (intros; simpl; by rewrite <-list_fmap_compose).
  rewrite (ops_reshape4_blockwise _ b h (m - shift) s); cycle 1.
  { apply (fmap_matrices_shape _ _ _ _ s m); [done|].
    intros mat [Hmat Hrows]. rewrite drop_chunks.
    apply has_shape2_chunks. rewrite length_drop.
    rewrite (length_concat_rect s m) by done. nia. }
  { lia. }
  simpl. f_equal. rewrite <-!list_fmap_compose.
  erewrite (list_fmap_ext _ (λ x : Tensor3 A, _ <$> x))
    by (intros; simpl; by rewrite <-!list_fmap_compose).
  apply (fmap_matrices_ext _ _ _ _ _ _ _ Ht).
  intros mat [Hmat Hrows]. simpl. f_equal. f_equal.
  rewrite drop_chunks. apply concat_chunks.
  rewrite length_drop, (length_concat_rect s m) by done. nia.
Qed.
End Gather.

(** The entry [(i, j)] of a gathered matrix is the entry
    [(i, shift * (seq_len - i) + j)] of the input matrix. *)
Lemma lookup_gathered_matrix {A} (mat : Tensor2 A) (s m context_len shift i j : nat) :
  has_shape2 mat s m → shift ≤ m → i < s → j < context_len → j < m - shift →
  shift * (s - i) + j < m →
  (r ← ((λ r : list A, take context_len r)
          <$> chunks s (m - shift) (drop (shift * s) (concat mat))) !! i; r !! j)
  = (r ← mat !! i; r !! (shift * (s - i) + j)).
Proof.
  intros [Hmat Hrows] Hshift Hi Hj Hj' Hcol.
  rewrite list_lookup_fmap, lookup_chunks by done. simpl.
  rewrite !lookup_take_lt, !lookup_drop by done.
  replace (shift * s + (i * (m - shift) + j)) with (i * m + (shift * (s - i) + j)) by nia.
  by apply lookup_concat_rect.
Qed.

Lemma get4_fmap_matrices {A} (f : Tensor2 A → Tensor2 A) (t : Tensor4 A) b h i j :
  get4 ((λ x : Tensor3 A, f <$> x) <$> t) b h i j
  = (x ← t !! b; mat ← x !! h; r ← f mat !! i; r !! j).
Proof.
  unfold get4. rewrite list_lookup_fmap. destruct (t !! b) as [x|]; simpl; [|done].
  rewrite list_lookup_fmap. by destruct (x !! h).
Qed.

(** C1 (amended).  For every input tensor [positional_attn] of shape
    [[batch_size, n_head, seq_len, max_rel_len]] with
    [max_rel_len = 2*context_len + shift - 1], [shift = 1] and
    [seq_len = context_len] (the case in which the attention passes
    [shift = 1]), the output of [_relative_shift_gather] at indices
    [(b, h, i, j)], for every [0 <= i < seq_len] and [0 <= j < context_len],
    equals the input at relative-offset row [(j-i)+context_len]:
    [output[b,h,i,j] = positional_attn[b,h,i,(j-i)+context_len]]. *)
Theorem relative_shift_gather_spec {A} (positional_attn : Tensor4 A)
    (batch_size n_head context_len b h i j : nat) :
  has_shape4 positional_attn batch_size n_head context_len (2 * context_len + 1 - 1) →
  b < batch_size → h < n_head → i < context_len → j < context_len →
  ∃ output,
    _relative_shift_gather positional_attn context_len 1 = inr output
    ∧ is_Some (get4 output b h i j)
    ∧ get4 output b h i j = get4 positional_attn b h i (context_len + j - i).
Proof.
  intros Ht Hb Hh Hi Hj.
  eexists. split; [apply (relative_shift_gather_closed _ _ _ _ _ _ _ Ht); lia|].
  rewrite get4_fmap_matrices. unfold get4.
  destruct Ht as [Hlen Hall].
  destruct (lookup_lt_is_Some_2 positional_attn b ltac:(lia)) as [x Hx].
  rewrite Hx. simpl.
  destruct (Forall_lookup_1 _ _ _ _ Hall Hx) as [Hxlen Hmats].
  destruct (lookup_lt_is_Some_2 x h ltac:(lia)) as [mat Hm].
  rewrite Hm. simpl.
  pose proof (Forall_lookup_1 _ _ _ _ Hmats Hm) as Hshape.
  rewrite (lookup_gathered_matrix mat context_len (2 * context_len + 1 - 1))
    by (done || lia).
  replace (1 * (context_len - i) + j) with (context_len + j - i) by lia.
  split; [|done].
  destruct Hshape as [Hrows Hcols].
  destruct (lookup_lt_is_Some_2 mat i ltac:(lia)) as [row Hrow].
  rewrite Hrow. simpl. apply lookup_lt_is_Some_2.
  rewrite (Forall_lookup_1 _ _ _ _ Hcols Hrow). lia.
Qed.

Lemma relative_shift_gather_spec_witness :
  ∃ output,
    _relative_shift_gather positional_attn_4_4 4 1 = inr output
    ∧ is_Some (get4 output 0 0 2 1)
    ∧ get4 output 0 0 2 1 = get4 positional_attn_4_4 0 0 2 (4 + 1 - 2).
Proof.
  apply (relative_shift_gather_spec positional_attn_4_4 1 1 4 0 0 2 1); try lia.
  split; [reflexivity|]. repeat constructor.
Defined.

(** C1 as stated fails on the synthetic case [seq_len = 4],
    [context_len = 4]: at [(i, j) = (0, 1)] the output is the input at
    column [(j-i)+context_len = 5], not at column [(i-j)+context_len = 3]. *)
Lemma relative_shift_gather_counterexample :
  ∃ output,
    _relative_shift_gather positional_attn_4_4 4 1 = inr output
    ∧ get4 output 0 0 0 1 = Some 5%Z
    ∧ get4 positional_attn_4_4 0 0 0 (Z.to_nat (0 - 1 + 4)) = Some 3%Z
    ∧ get4 output 0 0 0 1 ≠ get4 positional_attn_4_4 0 0 0 (Z.to_nat (0 - 1 + 4)).
Proof. eexists. split; [reflexivity|]. repeat split; discriminate. Qed.

(** ** The encoder: cumulative pooling stride *)

(** Invariant rule for a [for] loop that raises nothing. *)
Lemma for_each_inv {X L} (I : nat → L → World → Prop) (l : list X)
    (body : L → X → M L) (loc : L) (w : World) :
  I 0 loc w →
  (∀ i x loc w, l !! i = Some x → I i loc w →
     ∃ w' loc', body loc x w = (w', inr loc') ∧ I (S i) loc' w') →
  ∃ w' loc', for_each l body loc w = (w', inr loc') ∧ I (length l) loc' w'.
Proof.
  revert I loc w. induction l as [|x l IH]; intros I loc w H0 Hstep; simpl.
  - eauto.
  - destruct (Hstep 0 x loc w eq_refl H0) as (w1 & loc1 & Hbody & H1).
    unfold bind. rewrite Hbody.
    apply (IH (λ i, I (S i))); [done|].
    intros i y loc' w' Hy. by apply (Hstep (S i)).
Qed.













(** ** End to end: sequence lengths through the model *)

Lemma snd_bind {A B} (m : M A) (k : A → M B) (w : World) (a : A) :
  snd (m w) = inr a → snd (bind m k w) = snd (k a (fst (m w))).
Proof. unfold bind. destruct (m w) as [w' r]. simpl. by intros ->. Qed.

Lemma FunnelDecoder_forward_len config final_hidden first_block_hidden
    output_hidden_states w stride upsampled h :
  decoder_stride config = inr stride →
  upsample_seq_len final_hidden stride first_block_hidden
    (separate_cls config) (truncate_seq config) = inr upsampled →
  broadcast_len upsampled first_block_hidden = inr h →
  h ≠ 0 →
  ∃ hs, snd (FunnelDecoder_forward config final_hidden first_block_hidden
               output_hidden_states w) = inr (h, hs).
Proof.
  intros Hstride Hup Hadd Hh. unfold FunnelDecoder_forward.
  rewrite (snd_bind _ _ _ stride) by done.
  rewrite (snd_bind _ _ _ upsampled) by done.
  rewrite (snd_bind _ _ _ h) by done.
  rewrite (snd_bind _ _ _ tt); cycle 1.
  { unfold init_attention_inputs_shape.
    rewrite (snd_bind _ _ _ tt) by done.
    destruct (Nat.eqb_spec h 0) as [|_]; [done|]. by rewrite andb_false_r. }
  match goal with
  | |- context [bind (for_each ?l ?body ?loc0) _ ?w0] =>
      destruct (for_each_inv (λ _ loc1 _, fst loc1 = h) l body loc0 w0)
        as (w' & [h' hs'] & Hrun & Hfst)
  end.
  - done.
  - intros i x [h1 hs1] w1 _ Hfst. simpl in Hfst. subst h1.
    eexists _, _. split; [reflexivity|]. done.
  - simpl in Hfst. subst h'.
    rewrite (snd_bind _ _ _ (h, hs')) by (by rewrite Hrun). eauto.
Qed.

(** C4 (amended).  For a configuration with [num_blocks=2],
    [block_sizes=[2,2]], [attention_type=factorized], [separate_cls=True]
    (and the default [block_repeats=[1,1]] and a supported pooling type), any
    [FunnelModel] forward pass on a batch of sequence length 9 produces an
    encoder last hidden state of sequence length 5 (the length shrinks once,
    9→5, under ceiling pooling with the class token preserved: the first
    block does not pool) and a decoder output of sequence length restored to
    9. *)
Theorem funnel_model_seq_len_9 (config : FunnelConfig) (batch : nat)
    (output_hidden_states : bool) (w : World) :
  block_sizes config = [2; 2] → block_repeats config = [1; 1] →
  attention_type config = factorized → separate_cls config = true →
  supported_mode (pooling_type config) →
  num_blocks config = 2
  ∧ snd (FunnelEncoder_forward config 9 true w) = inr (5, Some [9; 9; 9; 5; 5])
  ∧ (∃ hs, snd (FunnelModel_forward config (Some (batch, 9)) None
                  output_hidden_states w) = inr (9, hs))
  ∧ (∃ hs, snd (FunnelModel_forward config None (Some (batch, 9))
                  output_hidden_states w) = inr (9, hs)).
Proof.
  destruct config as [sizes repeats decoder_layers mode q_only sep truncate att].
  simpl. intros -> -> -> -> Hmode.
  set (config := config_2_2 [1; 1] decoder_layers mode q_only truncate).
  assert (Henc : ∀ w', snd (FunnelEncoder_forward config 9 true w')
                       = inr (5, Some [9; 9; 9; 5; 5])).
  { intros w'. subst config.
    destruct Hmode as [-> | [-> | ->]], q_only, truncate; reflexivity. }
  assert (Hdec : ∀ w', ∃ hs, snd (FunnelDecoder_forward config 5 9
                                    output_hidden_states w') = inr (9, hs)).
  { intros w'. apply (FunnelDecoder_forward_len config 5 9 _ _ 2 9); try done.
    subst config. by destruct truncate. }
  split; [done|]. split; [done|].
  split; unfold FunnelModel_forward.
  - rewrite (snd_bind _ _ _ (batch, 9)) by done.
    rewrite (snd_bind _ _ _ 9) by done.
    rewrite (snd_bind _ _ _ _ (Henc _)).
    rewrite (snd_bind _ _ _ 9) by done.
    match goal with
    | |- context [bind (FunnelDecoder_forward _ _ _ _) _ ?w'] =>
        destruct (Hdec w') as [hs Hhs]
    end.
    rewrite (snd_bind _ _ _ _ Hhs). eexists. reflexivity.
  - rewrite (snd_bind _ _ _ (batch, 9)) by done.
    rewrite (snd_bind _ _ _ 9) by done.
    rewrite (snd_bind _ _ _ _ (Henc _)).
    rewrite (snd_bind _ _ _ 9) by done.
    match goal with
    | |- context [bind (FunnelDecoder_forward _ _ _ _) _ ?w'] =>
        destruct (Hdec w') as [hs Hhs]
    end.
    rewrite (snd_bind _ _ _ _ Hhs). eexists. reflexivity.
Qed.

Lemma funnel_model_seq_len_9_witness :
  num_blocks config_small = 2
  ∧ snd (FunnelEncoder_forward config_small 9 true initial_world)
    = inr (5, Some [9; 9; 9; 5; 5])
  ∧ (∃ hs, snd (FunnelModel_forward config_small (Some (3, 9)) None
                  true initial_world) = inr (9, hs))
  ∧ (∃ hs, snd (FunnelModel_forward config_small None (Some (3, 9))
                  true initial_world) = inr (9, hs)).
Proof.
  apply (funnel_model_seq_len_9 config_small 3 true initial_world);
    try reflexivity.
  left. reflexivity.
Defined.

(** C4 as stated fails: the encoder output has sequence length 5, not 3. *)
Lemma funnel_model_seq_len_9_counterexample :
  snd (FunnelEncoder_forward config_small 9 true initial_world)
    = inr (5, Some [9; 9; 9; 5; 5])
  ∧ ∀ hs, snd (FunnelEncoder_forward config_small 9 true initial_world)
          ≠ inr (3, hs).
Proof. split; [reflexivity | discriminate]. Qed.

(** ** The shape-level functions agree with the tensor-level ones *)

Lemma pool_mode_closed (mode : string) (t4 : Tensor4 Q) (k : nat) :
  supported_mode mode → k ≠ 0 →
  pool_mode mode t4 k
  = inr ((λ n : Tensor3 Q, (λ c : Tensor2 Q, pool_rows mode k c) <$> n) <$> t4).
Proof.
  intros Hmode Hk. unfold pool_mode, pool_rows, F_avg_pool2d, F_max_pool2d, pool2d.
  destruct (decide (k = 0)) as [|_]; [done|].
  destruct Hmode as [-> | [-> | ->]]; simpl; [done..|].
  unfold neg4. f_equal. rewrite <-!list_fmap_compose.
  apply list_fmap_ext; intros _ n _. simpl. rewrite <-!list_fmap_compose.
  apply list_fmap_ext; intros _ c _. done.
Qed.

Lemma pool_mode_unsupported (mode : string) (t4 : Tensor4 Q) (k : nat) :
  (String.eqb mode "mean" || String.eqb mode "max" || String.eqb mode "min") = false →
  pool_mode mode t4 k
  = inl (NotImplementedError "The supported modes are 'mean', 'max' and 'min'.").
Proof.
  intros Hmode. unfold pool_mode.
  destruct (String.eqb mode "mean"), (String.eqb mode "max"), (String.eqb mode "min");
    done.
Qed.

Lemma pool_mode_stride_0 (mode : string) (t4 : Tensor4 Q) :
  (String.eqb mode "mean" || String.eqb mode "max" || String.eqb mode "min") = true →
  pool_mode mode t4 0 = inl (RuntimeError "pool2d: stride should not be zero").
Proof.
  intros Hmode. unfold pool_mode, F_avg_pool2d, F_max_pool2d, pool2d.
  destruct (String.eqb mode "mean"), (String.eqb mode "max"), (String.eqb mode "min");
    done.
Qed.

Lemma supported_mode_eqb (mode : string) :
  (String.eqb mode "mean" || String.eqb mode "max" || String.eqb mode "min") = true
  ↔ supported_mode mode.
Proof.
  unfold supported_mode. rewrite !orb_true_iff, !String.eqb_eq. tauto.
Qed.

Lemma length_pool_rows (mode : string) (k : nat) (c : Tensor2 Q) :
  length (pool_rows mode k c) = ceil_div (length c) k.
Proof.
  unfold pool_rows, windows.
  repeat case_match; rewrite !length_fmap, length_chunks, ?length_fmap; done.
Qed.

Lemma cat_cls_length {A} (config : FunnelConfig) (t : Tensor2 A) (n : nat) :
  Forall (λ row, length row = n) t →
  length (cat_cls config t) = length t
  ∧ Forall (λ row, length row
                   = if separate_cls config
                     then min 1 n + (if truncate_seq config then n - 1 else n)
                     else n) (cat_cls config t).
Proof.
  intros Hrows. unfold cat_cls, drop_last_token.
  destruct (separate_cls config); [|done].
  assert (Hcat : ∀ g : list A → list A,
            zip_with app ((λ row : list A, take 1 row) <$> t) (g <$> t)
            = (λ row, take 1 row ++ g row) <$> t) by (intros; apply zip_with_fmap_diag).
  destruct (truncate_seq config).
  - rewrite Hcat, length_fmap. split; [done|].
    apply Forall_fmap. eapply list.Forall_impl; [exact Hrows|].
    intros row <-. simpl. rewrite length_app, !length_take.
    destruct (length row); lia.
  - pose proof (Hcat id) as Hid. rewrite list_fmap_id in Hid.
    rewrite Hid, length_fmap. split; [done|].
    apply Forall_fmap. eapply list.Forall_impl; [exact Hrows|].
    intros row <-. simpl. rewrite length_app, !length_take.
    destruct (length row); lia.
Qed.

(** [pool_tensor_seq_len] is the sequence length of [pool_tensor] on a
    tensor [[B, T, H]], and raises the same exception. *)
Lemma pool_tensor_seq_len_correct (fuel : nat) (config : FunnelConfig) (t : Tensor3 Q)
    (n : nat) (mode : string) (stride : nat) :
  Forall (λ row, length row = n) t →
  match pool_tensor_seq_len config n mode stride with
  | inl e => pool_tensor (S fuel) config (PTensor3 t) mode stride = inl e
  | inr m =>
      ∃ t', pool_tensor (S fuel) config (PTensor3 t) mode stride = inr (PTensor3 t')
            ∧ length t' = length t ∧ Forall (λ row, length row = m) t'
  end.
Proof.
  intros Hrows. destruct (cat_cls_length config t n Hrows) as [Hlen Hcat].
  unfold pool_tensor_seq_len. simpl.
  destruct (String.eqb mode "mean" || String.eqb mode "max" || String.eqb mode "min")
    eqn:Hmode.
  - destruct (decide (stride = 0)) as [->|Hstride].
    + by rewrite pool_mode_stride_0.
    + rewrite pool_mode_closed by (by apply supported_mode_eqb || done). simpl.
      eexists. split; [reflexivity|]. rewrite <-!list_fmap_compose.
      rewrite length_fmap. split; [done|].
      apply Forall_fmap. eapply list.Forall_impl; [exact Hcat|].
      intros row Hrow. simpl. by rewrite length_pool_rows, Hrow.
  - by rewrite pool_mode_unsupported.
Qed.

Lemma length_repeat_interleave {A} (row : list A) (k : nat) :
  length (repeat_interleave row k) = length row * k.
Proof.
  unfold repeat_interleave. induction row as [|a row IH]; csimpl; [done|].
  by rewrite length_app, length_replicate, IH.
Qed.

(** [upsample_seq_len] is the sequence length of [upsample], and raises the
    same exception. *)
Lemma upsample_seq_len_correct {V} (zero : V) (x : Tensor2 V) (n stride target_len : nat)
    (separate_cls truncate_seq : bool) :
  Forall (λ row, length row = n) x →
  match upsample_seq_len n stride target_len separate_cls truncate_seq with
  | inl e => upsample zero x stride target_len separate_cls truncate_seq = inl e
  | inr m =>
      ∃ x', upsample zero x stride target_len separate_cls truncate_seq = inr x'
            ∧ length x' = length x ∧ Forall (λ row, length row = m) x'
  end.
Proof.
  intros Hrows. unfold upsample_seq_len, upsample.
  destruct (decide (stride = 1)) as [|_]; [eauto|].
  assert (Hcat : ∀ g : list V → list V,
            zip_with app ((λ row : list V, take 1 row) <$> x) (g <$> x)
            = (λ row, take 1 row ++ g row) <$> x) by (intros; apply zip_with_fmap_diag).
  destruct separate_cls.
  - destruct truncate_seq; [destruct stride as [|s]; [done|]|]; simpl;
      rewrite <-!list_fmap_compose, Hcat;
      (eexists; split; [reflexivity|]; rewrite length_fmap; split; [done|]);
      (apply Forall_fmap; eapply list.Forall_impl; [exact Hrows|]);
      intros row <-; simpl; unfold take_upto_pred;
      destruct target_len as [|target];
      rewrite !length_app, !length_take, ?length_app, ?length_replicate,
        !length_repeat_interleave, !length_drop.
    all: destruct (length row); simpl; lia.
  - eexists. split; [reflexivity|]. rewrite <-!list_fmap_compose, length_fmap.
    split; [done|]. apply Forall_fmap. eapply list.Forall_impl; [exact Hrows|].
    intros row <-. simpl. rewrite length_take, length_repeat_interleave. lia.
Qed.

(** When the call of [get_position_embeds] returns,
    [init_attention_inputs_shape] writes the state that
    [init_attention_inputs] writes and fails when it fails. *)
Lemma init_attention_inputs_shape_correct {P} (config : FunnelConfig) (position_embeds : P)
    (n : nat) (mask : option (Tensor2 Q)) (token_type_ids : option (Tensor2 Z))
    (w : World) :
  encoder_structure (fst (init_attention_inputs_shape config encoder_ref n w))
    = fst (init_attention_inputs config (inr position_embeds) n mask token_type_ids)
  ∧ match snd (init_attention_inputs_shape config encoder_ref n w),
          snd (init_attention_inputs config (inr position_embeds) n mask
                 token_type_ids) with
    | inl e, inl e' => e = e'
    | inr _, inr _ => True
    | _, _ => False
    end.
Proof.
  unfold init_attention_inputs_shape, init_attention_inputs, bind. simpl.
  by destruct (separate_cls config), n.
Qed.

(** * Further properties of the code *)

(** ** [pool_tensor]: shapes, modes *)

Lemma pool_tensor_seq_len_correct2 (fuel : nat) (config : FunnelConfig) (t : Tensor2 Q)
    (n : nat) (mode : string) (stride : nat) :
  Forall (λ row, length row = n) t →
  match pool_tensor_seq_len config n mode stride with
  | inl e => pool_tensor (S fuel) config (PTensor2 t) mode stride = inl e
  | inr m =>
      ∃ t', pool_tensor (S fuel) config (PTensor2 t) mode stride = inr (PTensor2 t')
            ∧ length t' = length t ∧ Forall (λ row, length row = m) t'
  end.
Proof.
  intros Hrows. destruct (cat_cls_length config t n Hrows) as [Hlen Hcat].
  unfold pool_tensor_seq_len. simpl.
  destruct (String.eqb mode "mean" || String.eqb mode "max" || String.eqb mode "min")
    eqn:Hmode.
  - destruct (decide (stride = 0)) as [->|Hstride].
    + by rewrite pool_mode_stride_0.
    + rewrite pool_mode_closed by (by apply supported_mode_eqb || done). simpl.
      eexists. split; [reflexivity|]. rewrite <-!list_fmap_compose.
      rewrite length_fmap. split; [done|].
      apply Forall_fmap. eapply list.Forall_impl; [exact Hcat|].
      intros row Hrow. simpl.
      by rewrite length_fmap, length_pool_rows, length_fmap, Hrow.
  - by rewrite pool_mode_unsupported.
Qed.

(** X1.  For every supported mode and every stride [>= 1], [pool_tensor] on
    a single tensor [[B, n]] or [[B, n, H]] returns a tensor with the same
    batch size whose sequence length is [ceil(n' / stride)], where [n'] is
    [n] without a separate class token, [n + 1] with one (the class token
    is prepended), and [n] with one under [truncate_seq] (the last token is
    dropped first). *)
Theorem pool_tensor_shape (fuel : nat) (config : FunnelConfig) (mode : string)
    (stride n : nat) :
  supported_mode mode → stride ≠ 0 →
  let n' := if separate_cls config
            then min 1 n + (if truncate_seq config then n - 1 else n)
            else n in
  (∀ t : Tensor2 Q, Forall (λ row, length row = n) t →
     ∃ t', pool_tensor (S fuel) config (PTensor2 t) mode stride = inr (PTensor2 t')
           ∧ length t' = length t
           ∧ Forall (λ row, length row = ceil_div n' stride) t')
  ∧ (∀ t : Tensor3 Q, Forall (λ row, length row = n) t →
     ∃ t', pool_tensor (S fuel) config (PTensor3 t) mode stride = inr (PTensor3 t')
           ∧ length t' = length t
           ∧ Forall (λ row, length row = ceil_div n' stride) t').
Proof.
  intros Hmode Hstride n'.
  assert (Hlen : pool_tensor_seq_len config n mode stride = inr (ceil_div n' stride)).
  { unfold pool_tensor_seq_len. apply supported_mode_eqb in Hmode. rewrite Hmode.
    by destruct (decide (stride = 0)). }
  split; intros t Hrows.
  - pose proof (pool_tensor_seq_len_correct2 fuel config t n mode stride Hrows) as H.
    by rewrite Hlen in H.
  - pose proof (pool_tensor_seq_len_correct fuel config t n mode stride Hrows) as H.
    by rewrite Hlen in H.
Qed.

Lemma pool_tensor_shape_witness :
  ∃ t', pool_tensor 1 config_small (PTensor2 [[1; 2; 3; 4]%Q; [5; 6; 7; 8]%Q]) "max" 3
          = inr (PTensor2 t')
        ∧ length t' = 2
        ∧ Forall (λ row, length row = ceil_div (min 1 4 + 4) 3) t'.
Proof.
  apply (proj1 (pool_tensor_shape 0 config_small "max" 3 4
                  (or_intror (or_introl eq_refl)) ltac:(lia))
           [[1; 2; 3; 4]%Q; [5; 6; 7; 8]%Q]).
  repeat constructor.
Defined.

(** X2.  A mode other than "mean", "max" and "min" makes [pool_tensor]
    raise NotImplementedError on every single tensor, whatever the stride
    and the configuration. *)
Theorem pool_tensor_unsupported_mode (fuel : nat) (config : FunnelConfig)
    (mode : string) (stride : nat) :
  ¬ supported_mode mode →
  (∀ t : Tensor2 Q,
     pool_tensor (S fuel) config (PTensor2 t) mode stride
     = inl (NotImplementedError "The supported modes are 'mean', 'max' and 'min'."))
  ∧ (∀ t : Tensor3 Q,
     pool_tensor (S fuel) config (PTensor3 t) mode stride
     = inl (NotImplementedError "The supported modes are 'mean', 'max' and 'min'.")).
Proof.
  intros Hmode.
  assert (Heqb : (String.eqb mode "mean" || String.eqb mode "max"
                  || String.eqb mode "min") = false).
  { apply not_true_is_false. by rewrite supported_mode_eqb. }
  split; intros t; simpl; by rewrite pool_mode_unsupported.
Qed.

Lemma pool_tensor_unsupported_mode_witness :
  pool_tensor 1 config_small (PTensor2 [[1; 2]%Q]) "sum" 2
  = inl (NotImplementedError "The supported modes are 'mean', 'max' and 'min'.").
Proof.
  apply (proj1 (pool_tensor_unsupported_mode 0 config_small "sum" 2
                  ltac:(intros [H | [H | H]]; discriminate H))).
Defined.

Lemma windows_fmap {A B} (f : A → B) (k : nat) (l : list A) :
  windows k (f <$> l) = (λ w : list A, f <$> w) <$> windows k l.
Proof. unfold windows. by rewrite length_fmap, chunks_fmap. Qed.

Lemma ceil_div_mul_lt (len k i : nat) : k ≠ 0 → i < ceil_div len k → i * k < len.
Proof.
  unfold ceil_div. intros Hk Hi.
  assert (S i * k ≤ len + (k - 1)).
  { etrans; [apply Nat.mul_le_mono_r, Hi|]. rewrite Nat.mul_comm.
    by apply Nat.Div0.mul_div_le. }
  nia.
Qed.

(** Every pooling window holds at least one row. *)
Lemma windows_nonempty {A} (k : nat) (l : list A) :
  k ≠ 0 → Forall (λ w, w ≠ []) (windows k l).
Proof.
  intros Hk. apply Forall_lookup_2. intros i w Hw. unfold windows in Hw.
  assert (Hi : i < ceil_div (length l) k).
  { apply lookup_lt_Some in Hw. by rewrite length_chunks in Hw. }
  rewrite lookup_chunks in Hw by done. simplify_eq.
  pose proof (ceil_div_mul_lt _ _ _ Hk Hi) as Hlt.
  intros Hnil. apply (f_equal length) in Hnil.
  rewrite length_take, length_drop in Hnil. simpl in Hnil. lia.
Qed.

Lemma foldl_zip_with_singleton {A B} (f : A → A → A) (g : B → A) (a : A) (l : list B) :
  foldl (zip_with f) [a] ((λ x, [g x]) <$> l) = [foldl f a (g <$> l)].
Proof. revert a. induction l as [|x l IH]; intros a; csimpl; [done|]. apply IH. Qed.

Lemma foldl_Qmax_spec (a : Q) (bs : list Q) :
  foldl Qmax a bs ∈ a :: bs ∧ ∀ z, z ∈ a :: bs → (z <= foldl Qmax a bs)%Q.
Proof.
  revert a. induction bs as [|b bs IH]; intros a; simpl.
  - split; [apply list_elem_of_here|]. intros z Hz.
    apply list_elem_of_singleton in Hz as ->. apply Qle_refl.
  - destruct (IH (Qmax a b)) as [Hin Hle]. split.
    + apply elem_of_cons in Hin as [Hin | Hin];
        [|by do 2 apply list_elem_of_further].
      rewrite Hin. unfold Qmax, GenericMinMax.gmax.
      destruct (a ?= b)%Q;
        first [apply list_elem_of_here
              | apply list_elem_of_further, list_elem_of_here].
    + intros z Hz. apply elem_of_cons in Hz as [-> | Hz].
      * eapply Qle_trans; [apply (Q.le_max_l a b)|].
        apply Hle, list_elem_of_here.
      * apply elem_of_cons in Hz as [-> | Hz].
        -- eapply Qle_trans; [apply (Q.le_max_r a b)|].
           apply Hle, list_elem_of_here.
        -- by apply Hle, list_elem_of_further.
Qed.

Lemma Qopp_opp_eq (x : Q) : Qopp (Qopp x) = x.
Proof. destruct x as [a b]. unfold Qopp. simpl. by rewrite Z.opp_involutive. Qed.

(** The "min" mode on one window [w] of scalars: the negated maximum of the
    negated entries is the least entry of the window. *)
Lemma min_window_spec (w : list Q) :
  w ≠ [] →
  let y := hd 0%Q (Qopp <$> reduce_rows Qmax ((λ x, [Qopp x]) <$> w)) in
  y ∈ w ∧ ∀ x, x ∈ w → (y <= x)%Q.
Proof.
  destruct w as [|x w]; [done|]. intros _. csimpl.
  rewrite foldl_zip_with_singleton. simpl.
  destruct (foldl_Qmax_spec (- x)%Q (Qopp <$> w)) as [Hin Hle]. split.
  - change ((- x)%Q :: (Qopp <$> w)) with (Qopp <$> (x :: w)) in Hin.
    apply list_elem_of_fmap in Hin as (z & Hz & Hzin).
    by rewrite Hz, Qopp_opp_eq.
  - intros z Hz.
    assert (Hz' : (- z)%Q ∈ (- x)%Q :: (Qopp <$> w)).
    { change ((- x)%Q :: (Qopp <$> w)) with (Qopp <$> (x :: w)).
      by apply list_elem_of_fmap_2. }
    apply Hle, Qopp_le_compat in Hz'. by rewrite Qopp_opp_eq in Hz'.
Qed.

Lemma pool_rows_min (k : nat) (c : Tensor2 Q) :
  pool_rows "min" k c
  = (λ r : list Q, Qopp <$> r)
      <$> (reduce_rows Qmax <$> windows k ((λ r : list Q, Qopp <$> r) <$> c)).
Proof. reflexivity. Qed.

Lemma pool_tensor_rank2_closed (fuel : nat) (config : FunnelConfig) (t : Tensor2 Q)
    (mode : string) (k : nat) :
  supported_mode mode → k ≠ 0 →
  pool_tensor (S fuel) config (PTensor2 t) mode k
  = inr (PTensor2
      ((λ row : list Q,
          (λ r : list Q, hd 0%Q r) <$> pool_rows mode k ((λ x, [x]) <$> row))
         <$> cat_cls config t)).
Proof.
  intros Hmode Hk. simpl. rewrite pool_mode_closed by done. simpl.
  by rewrite <-!list_fmap_compose.
Qed.

(** X3.  With mode "min" (the mode applied to the attention mask) and a
    stride [>= 1], every entry of the result of [pool_tensor] on a tensor
    [[B, T]] is the least entry of its pooling window: it belongs to the
    window and is below every entry of it.  The windows are taken over the
    row with the class token prepended when [separate_cls] is set. *)
Theorem pool_tensor_min_is_window_minimum (fuel : nat) (config : FunnelConfig)
    (t : Tensor2 Q) (stride : nat) :
  stride ≠ 0 →
  ∃ t', pool_tensor (S fuel) config (PTensor2 t) "min" stride = inr (PTensor2 t')
    ∧ Forall2 (λ row' row,
                 Forall2 (λ y w, y ∈ w ∧ ∀ x, x ∈ w → (y <= x)%Q)
                   row' (windows stride row))
        t' (cat_cls config t).
Proof.
  intros Hstride.
  rewrite pool_tensor_rank2_closed by (done || (right; right; reflexivity)).
  eexists. split; [reflexivity|].
  apply Forall2_fmap_l, Forall_Forall2_diag, Forall_forall. intros row _.
  unfold compose. cbn beta. rewrite pool_rows_min.
  rewrite <-!list_fmap_compose, windows_fmap, <-!list_fmap_compose.
  apply Forall2_fmap_l, Forall_Forall2_diag.
  eapply list.Forall_impl; [apply (windows_nonempty stride row Hstride)|].
  intros w Hw. unfold compose. cbn beta.
  exact (min_window_spec w Hw).
Qed.

Lemma pool_tensor_min_is_window_minimum_witness :
  ∃ t', pool_tensor 1 config_small (PTensor2 [[1; 1; 0; 1; 1]%Q]) "min" 2
          = inr (PTensor2 t')
    ∧ Forall2 (λ row' row,
                 Forall2 (λ y w, y ∈ w ∧ ∀ x, x ∈ w → (y <= x)%Q)
                   row' (windows 2 row))
        t' (cat_cls config_small [[1; 1; 0; 1; 1]%Q]).
Proof.
  apply (pool_tensor_min_is_window_minimum 0 config_small [[1; 1; 0; 1; 1]%Q] 2).
  lia.
Defined.

(** ** [upsample]: round trip and contents *)

Lemma ceil_div_2_bounds (a : nat) : a ≤ 2 * ceil_div a 2 ∧ 2 * ceil_div a 2 ≤ a + 1.
Proof.
  unfold ceil_div. replace (a + (2 - 1)) with (a + 1) by lia.
  pose proof (Nat.div_mod_eq (a + 1) 2) as Hdm.
  pose proof (Nat.mod_upper_bound (a + 1) 2 ltac:(lia)) as Hmod. lia.
Qed.

(** After [k] poolings a sequence of length [n >= 1] is long enough for the
    stride [2^k] to cover it again. *)
Lemma block_len_bounds (config : FunnelConfig) (n k : nat) :
  1 ≤ n →
  1 ≤ block_len config n k
  ∧ (if separate_cls config && negb (truncate_seq config)
     then n - 1 ≤ (block_len config n k - 1) * 2 ^ k
     else n ≤ block_len config n k * 2 ^ k).
Proof.
  intros Hn. induction k as [|k [IH1 IH2]].
  - simpl. split; [done|]. destruct (_ && _); lia.
  - cbn [block_len]. set (L := block_len config n k) in *.
    rewrite Nat.pow_succ_r'. unfold pooled_len.
    replace (1 `min` L) with 1 by lia.
    set (p := 2 ^ k) in *.
    destruct (separate_cls config), (truncate_seq config); cbn [andb negb] in *;
      match goal with
      | |- context [ceil_div ?a 2] =>
          pose proof (ceil_div_2_bounds a); set (q := ceil_div a 2) in *
      end; split; nia.
Qed.

Lemma upsample_seq_len_round_trip (config : FunnelConfig) (n k : nat) :
  1 ≤ n →
  upsample_seq_len (block_len config n k) (2 ^ k) n
    (separate_cls config) (truncate_seq config) = inr n.
Proof.
  intros Hn. destruct (block_len_bounds config n k Hn) as [HL Hbound].
  unfold upsample_seq_len.
  destruct k as [|k]; [done|].
  set (L := block_len config n (S k)) in *.
  assert (Hs : 2 ≤ 2 ^ S k).
  { rewrite Nat.pow_succ_r'. pose proof (Nat.pow_nonzero 2 k). lia. }
  set (s := 2 ^ S k) in *.
  destruct (decide (s = 1)) as [|_]; [lia|].
  destruct n as [|t]; [lia|].
  destruct L as [|L']; [lia|]. destruct s as [|s']; [lia|].
  destruct (separate_cls config), (truncate_seq config);
    cbn [andb negb bindR] in *; cbv zeta; f_equal;
    rewrite ?Nat.sub_succ, ?Nat.sub_0_r in *.
  - change (1 `min` S L') with 1. nia.
  - change (1 `min` S L') with 1. nia.
  - lia.
  - lia.
Qed.

(** X4.  Round trip of the sequence length: a hidden state that results
    from [k] poolings of a sequence of length [n >= 1] (so that its length is
    [block_len config n k]) is upsampled with stride [2^k] and target length
    [n] to a tensor of sequence length exactly [n], with the same batch
    size, for every setting of [separate_cls] and [truncate_seq]. *)
Theorem upsample_round_trip {V} (zero : V) (config : FunnelConfig) (n k : nat)
    (x : Tensor2 V) :
  1 ≤ n → Forall (λ row, length row = block_len config n k) x →
  ∃ x', upsample zero x (2 ^ k) n (separate_cls config) (truncate_seq config) = inr x'
        ∧ length x' = length x ∧ Forall (λ row, length row = n) x'.
Proof.
  intros Hn Hrows.
  pose proof (upsample_seq_len_correct zero x _ (2 ^ k) n
                (separate_cls config) (truncate_seq config) Hrows) as H.
  by rewrite upsample_seq_len_round_trip in H.
Qed.

Lemma upsample_round_trip_witness :
  ∃ x', upsample 0 [[7; 1; 2]; [8; 3; 4]] (2 ^ 2) 9
          (separate_cls config_small) (truncate_seq config_small) = inr x'
        ∧ length x' = 2 ∧ Forall (λ row, length row = 9) x'.
Proof.
  apply (upsample_round_trip 0 config_small 9 2 [[7; 1; 2]; [8; 3; 4]]);
    [lia | repeat constructor].
Defined.

Lemma lookup_repeat_interleave {A} (row : list A) (s j : nat) :
  s ≠ 0 → repeat_interleave row s !! j = row !! (j / s).
Proof.
  intros Hs. unfold repeat_interleave. revert j.
  induction row as [|a row IH]; intros j; csimpl; [by rewrite !lookup_nil|].
  destruct (decide (j < s)) as [Hlt|Hge].
  - rewrite lookup_app_l by (by rewrite length_replicate).
    rewrite Nat.div_small by done. by rewrite lookup_replicate_2.
  - rewrite lookup_app_r by (rewrite length_replicate; lia).
    rewrite length_replicate, IH.
    replace j with ((j - s) + 1 * s) at 2 by lia.
    rewrite Nat.div_add by done. by rewrite Nat.add_1_r.
Qed.

(** X5.  Contents of [upsample] for a stride [>= 2]: with a separate class
    token, position 0 of every non-empty output row is the (unrepeated)
    class token and position [1 + j] below the target length is the input
    token [1 + j / stride]; without one, position [j] below the target length
    is the input token [j / stride]. *)
Theorem upsample_tokens {V} (zero : V) (x : Tensor2 V) (stride target_len : nat)
    (separate_cls truncate_seq : bool) :
  2 ≤ stride →
  ∃ x', upsample zero x stride target_len separate_cls truncate_seq = inr x'
    ∧ Forall2 (λ row' row,
        if separate_cls then
          row ≠ [] →
          row' !! 0 = row !! 0
          ∧ ∀ j, S j < target_len → j / stride < length row - 1 →
                 row' !! S j = row !! S (j / stride)
        else
          ∀ j, j < target_len → row' !! j = row !! (j / stride)) x' x.
Proof.
  intros Hs. unfold upsample.
  destruct (decide (stride = 1)) as [|_]; [lia|].
  assert (Hcat : ∀ g : list V → list V,
            zip_with app ((λ row : list V, take 1 row) <$> x) (g <$> x)
            = (λ row, take 1 row ++ g row) <$> x) by (intros; apply zip_with_fmap_diag).
  destruct separate_cls.
  - set (pad := if truncate_seq then replicate (stride - 1) zero else []).
    assert (Hout : (if truncate_seq
                    then match stride with
                         | 0 => inl (RuntimeError "pad: negative padding")
                         | S s => inr ((λ row : list V, row ++ replicate s zero)
                                         <$> ((λ row : list V, repeat_interleave row stride)
                                                <$> ((λ row : list V, drop 1 row) <$> x)))
                         end
                    else inr ((λ row : list V, repeat_interleave row stride)
                                <$> ((λ row : list V, drop 1 row) <$> x)))
                   = inr ((λ row : list V, repeat_interleave (drop 1 row) stride ++ pad)
                            <$> x)).
    { subst pad. destruct truncate_seq.
      - destruct stride as [|s]; [lia|]. f_equal. rewrite <-!list_fmap_compose.
        apply list_fmap_ext; intros _ row _. simpl. by rewrite Nat.sub_0_r.
      - f_equal. rewrite <-!list_fmap_compose.
        apply list_fmap_ext; intros _ row _. simpl. by rewrite app_nil_r. }
    rewrite Hout. simpl. rewrite <-list_fmap_compose, Hcat.
    eexists. split; [reflexivity|].
    apply Forall2_fmap_l, Forall_Forall2_diag, Forall_forall. intros row _.
    unfold compose. cbn beta. intros Hrow.
    destruct row as [|c rest]; [done|]. simpl. split; [done|].
    intros j Hj Hdiv. rewrite Nat.sub_0_r in Hdiv.
    destruct target_len as [|t]; [lia|]. simpl.
    rewrite lookup_take_lt by lia.
    assert (j < length rest * stride).
    { pose proof (Nat.div_mod_eq j stride).
      pose proof (Nat.mod_upper_bound j stride ltac:(lia)). nia. }
    rewrite lookup_app_l by (by rewrite length_repeat_interleave).
    apply lookup_repeat_interleave. lia.
  - eexists. split; [reflexivity|]. rewrite <-list_fmap_compose.
    apply Forall2_fmap_l, Forall_Forall2_diag, Forall_forall. intros row _.
    unfold compose. cbn beta. intros j Hj.
    rewrite lookup_take_lt by done. apply lookup_repeat_interleave. lia.
Qed.

Lemma upsample_tokens_witness :
  ∃ x', upsample 0 [[7; 1; 2]] 2 5 true true = inr x'
    ∧ Forall2 (λ row' row,
        row ≠ [] →
        row' !! 0 = row !! 0
        ∧ ∀ j, S j < 5 → j / 2 < length row - 1 →
               row' !! S j = row !! S (j / 2)) x' [[7; 1; 2]].
Proof. apply (upsample_tokens 0 [[7; 1; 2]] 2 5 true true). lia. Defined.

(** ** [stride_pool] *)

Lemma list_pair_ind {A} (P : list A → Prop) :
  P [] → (∀ a, P [a]) → (∀ a b l, P l → P (a :: b :: l)) → ∀ l, P l.
Proof.
  intros Hnil Hone Hstep l.
  cut (P l ∧ ∀ a, P (a :: l)); [by intros [? _]|].
  induction l as [|b l [IH1 IH2]]; [by split|].
  split; [apply IH2|]. intros a. by apply Hstep.
Qed.

Lemma lookup_every_second {A} (l : list A) (i : nat) :
  every_second l !! i = l !! (2 * i).
Proof.
  revert i. induction l as [|a|a b l IH] using list_pair_ind; intros i.
  - done.
  - destruct i as [|i]; [done|]. simpl.
    by replace (i + S (i + 0)) with (S (i + i)) by lia.
  - destruct i as [|i]; [done|]. cbn [every_second]. rewrite lookup_cons_ne_0 by done.
    cbn [pred]. rewrite IH. by replace (2 * S i) with (S (S (2 * i))) by lia.
Qed.

Lemma length_every_second {A} (l : list A) :
  length (every_second l) = ceil_div (length l) 2.
Proof.
  induction l as [|a|a b l IH] using list_pair_ind; [done..|].
  cbn [every_second length]. rewrite IH. unfold ceil_div.
  replace (S (S (length l)) + (2 - 1)) with (length l + (2 - 1) + 1 * 2) by lia.
  rewrite Nat.div_add by done. lia.
Qed.

Lemma every_second_fmap {A B} (f : A → B) (l : list A) :
  every_second (f <$> l) = f <$> every_second l.
Proof.
  induction l as [|a|a b l IH] using list_pair_ind; [done..|].
  csimpl. by rewrite IH.
Qed.

Lemma every_second_replicate {A} (a : A) (n : nat) :
  every_second (replicate n a) = replicate (ceil_div n 2) a.
Proof.
  apply list_eq. intros i. rewrite lookup_every_second.
  pose proof (ceil_div_2_bounds n) as Hn.
  destruct (decide (2 * i < n)) as [Hlt|Hge].
  - rewrite !lookup_replicate_2; [done|lia|done].
  - rewrite !(proj1 (lookup_replicate_None _ _ _)); [done|lia..].
Qed.

Lemma stride_slice_fmap (config : FunnelConfig) {A B} (f : A → B) (l : list A) :
  stride_slice config (f <$> l) = f <$> stride_slice config l.
Proof.
  unfold stride_slice.
  destruct (separate_cls config), (truncate_seq config); cbn [andb];
    by rewrite <-?fmap_take, <-?fmap_app, ?length_fmap, <-?fmap_take, every_second_fmap.
Qed.

Lemma length_stride_slice (config : FunnelConfig) {A} (l : list A) :
  length (stride_slice config l) = pooled_len config (length l).
Proof.
  unfold stride_slice, pooled_len.
  destruct (separate_cls config), (truncate_seq config); cbn [andb];
    rewrite length_every_second, ?length_take, ?length_app, ?length_take;
    f_equal; lia.
Qed.

(** With a separate class token, the first slice is kept and every second
    of the others follows. *)
Lemma stride_slice_cons (config : FunnelConfig) {A} (a : A) (l : list A) :
  separate_cls config = true →
  stride_slice config (a :: l)
  = a :: every_second (if truncate_seq config then take (length l - 1) l else l).
Proof.
  intros Hsep. unfold stride_slice. rewrite Hsep.
  destruct (truncate_seq config); cbn [andb]; [|done].
  destruct l as [|b l]; [done|]. simpl. by rewrite Nat.sub_0_r.
Qed.

Lemma stride_slice_no_cls (config : FunnelConfig) {A} (l : list A) :
  separate_cls config = false → stride_slice config l = every_second l.
Proof. intros Hsep. unfold stride_slice. by rewrite Hsep. Qed.

Lemma Forall_every_second {A} (P : A → Prop) (l : list A) :
  Forall P l → Forall P (every_second l).
Proof.
  induction l as [|a|a b l IH] using list_pair_ind; [done..|].
  intros Hl. apply Forall_cons in Hl as [Ha Hl]. apply Forall_cons in Hl as [_ Hl].
  cbn [every_second]. apply Forall_cons. split; [done|by apply IH].
Qed.

Lemma Forall_stride_slice (config : FunnelConfig) {A} (P : A → Prop) (l : list A) :
  Forall P l → Forall P (stride_slice config l).
Proof.
  intros Hl. unfold stride_slice.
  assert (Forall P (take 1 l ++ l)) by (apply Forall_app; split; [by apply Forall_take|done]).
  destruct (separate_cls config), (truncate_seq config); cbn [andb];
    apply Forall_every_second; try apply Forall_take; done.
Qed.

Lemma has_shape2_stride_pool (config : FunnelConfig) {A} (mat : Tensor2 A) (n : nat) :
  has_shape2 mat n n →
  has_shape2 (stride_slice config ((λ row : list A, stride_slice config row) <$> mat))
    (pooled_len config n) (pooled_len config n).
Proof.
  intros [Hlen Hrows]. split.
  - by rewrite length_stride_slice, length_fmap, Hlen.
  - apply Forall_stride_slice, Forall_fmap.
    eapply list.Forall_impl; [exact Hrows|].
    intros row Hrow. simpl. by rewrite length_stride_slice, Hrow.
Qed.

(** Pooling the rows and pooling the columns of a matrix commute. *)
Lemma stride_slice_rows_columns (config : FunnelConfig) {A} (mat : Tensor2 A) :
  (λ row : list A, stride_slice config row) <$> stride_slice config mat
  = stride_slice config ((λ row : list A, stride_slice config row) <$> mat).
Proof. by rewrite stride_slice_fmap. Qed.

(** X6.  The four values that [pre_attention_pooling] pools when
    [pool_q_only] is off stay aligned: for a hidden state [[B, n, H]], an
    attention mask [[B, n]], a [token_type_mat] [[B, n, n]] and a [cls_mask]
    [[n, n]], [pool_tensor] (stride 2, a supported pooling type, [min] for
    the mask) and [stride_pool] on the axes [[1, 2]] all return tensors of
    the same sequence length [pooled_len config n] with the batch sizes
    unchanged ([stride_pool] reads axis 2 of the rank-2 [cls_mask] as its
    axis 0). *)
Theorem pre_attention_pooling_aligned (fuel : nat) (config : FunnelConfig)
    (output : Tensor3 Q) (attention_mask : Tensor2 Q) (token_type_mat : Tensor3 bool)
    (cls_mask : Tensor2 Q) (n : nat) :
  supported_mode (pooling_type config) →
  Forall (λ row, length row = n) output →
  Forall (λ row, length row = n) attention_mask →
  Forall (λ mat, has_shape2 mat n n) token_type_mat →
  has_shape2 cls_mask n n →
  ∃ output' attention_mask' token_type_mat' cls_mask',
    pool_tensor (S fuel) config (PTensor3 output) (pooling_type config) 2
      = inr (PTensor3 output')
    ∧ pool_tensor (S fuel) config (PTensor2 attention_mask) "min" 2
      = inr (PTensor2 attention_mask')
    ∧ stride_pool config (VTensor3 token_type_mat) (AxisSeq [1; 2]%Z)
      = VTensor3 token_type_mat'
    ∧ stride_pool config (VTensor2 cls_mask) (AxisSeq [1; 2]%Z) = VTensor2 cls_mask'
    ∧ length output' = length output
    ∧ Forall (λ row, length row = pooled_len config n) output'
    ∧ length attention_mask' = length attention_mask
    ∧ Forall (λ row, length row = pooled_len config n) attention_mask'
    ∧ length token_type_mat' = length token_type_mat
    ∧ Forall (λ mat, has_shape2 mat (pooled_len config n) (pooled_len config n))
        token_type_mat'
    ∧ has_shape2 cls_mask' (pooled_len config n) (pooled_len config n).
Proof.
  intros Hmode Houtput Hmask Hmat Hcls.
  assert (Hlen : ∀ mode, supported_mode mode →
            pool_tensor_seq_len config n mode 2 = inr (pooled_len config n)).
  { intros mode Hm. unfold pool_tensor_seq_len. apply supported_mode_eqb in Hm.
    by rewrite Hm. }
  pose proof (pool_tensor_seq_len_correct fuel config output n (pooling_type config) 2
                Houtput) as H1.
  rewrite (Hlen _ Hmode) in H1. destruct H1 as (output' & -> & Hlen1 & Hrows1).
  pose proof (pool_tensor_seq_len_correct2 fuel config attention_mask n "min" 2 Hmask) as H2.
  rewrite (Hlen "min"%string) in H2 by (right; right; reflexivity).
  destruct H2 as (mask' & -> & Hlen2 & Hrows2).
  exists output', mask'. eexists. eexists.
  split; [reflexivity|]. split; [reflexivity|].
  split; [reflexivity|]. split; [reflexivity|].
  split; [done|]. split; [done|]. split; [done|]. split; [done|].
  split; [by rewrite !length_fmap|].
  split; [|by apply has_shape2_stride_pool].
  rewrite <-list_fmap_compose. apply Forall_fmap.
  eapply list.Forall_impl; [exact Hmat|]. intros mat Hshape. simpl.
  rewrite stride_slice_rows_columns. by apply has_shape2_stride_pool.
Qed.

Lemma pre_attention_pooling_aligned_witness :
  ∃ output' attention_mask' token_type_mat' cls_mask',
    pool_tensor 1 config_small (PTensor3 [[[1]; [2]; [3]]%Q])
      (pooling_type config_small) 2 = inr (PTensor3 output')
    ∧ pool_tensor 1 config_small (PTensor2 [[1; 1; 0]%Q]) "min" 2
      = inr (PTensor2 attention_mask')
    ∧ stride_pool config_small
        (VTensor3 (token_type_ids_to_mat [[2; 0; 1]%Z])) (AxisSeq [1; 2]%Z)
      = VTensor3 token_type_mat'
    ∧ stride_pool config_small (VTensor2 (cls_mask_of 3)) (AxisSeq [1; 2]%Z)
      = VTensor2 cls_mask'
    ∧ length output' = 1
    ∧ Forall (λ row, length row = pooled_len config_small 3) output'
    ∧ length attention_mask' = 1
    ∧ Forall (λ row, length row = pooled_len config_small 3) attention_mask'
    ∧ length token_type_mat' = 1
    ∧ Forall (λ mat, has_shape2 mat (pooled_len config_small 3) (pooled_len config_small 3))
        token_type_mat'
    ∧ has_shape2 cls_mask' (pooled_len config_small 3) (pooled_len config_small 3).
Proof.
  apply (pre_attention_pooling_aligned 0 config_small [[[1]; [2]; [3]]%Q] [[1; 1; 0]%Q]
           (token_type_ids_to_mat [[2; 0; 1]%Z]) (cls_mask_of 3) 3).
  - left. reflexivity.
  - repeat constructor.
  - repeat constructor.
  - repeat constructor.
  - repeat constructor.
Defined.

(** X7.  What [stride_pool] keeps on the pooled axis (here axis 0 of a
    rank-2 tensor, under any of its names [0], [-2], [2], ...): the result has
    [pooled_len config n] rows; without a separate class token row [i] of the
    result is row [2*i] of the input; with one, row 0 is kept and row
    [i >= 1] of the result is row [2*i - 1] of the input. *)
Theorem stride_pool_rows (config : FunnelConfig) {A} (t : Tensor2 A) (axis : Z) :
  (axis mod 2 = 0)%Z →
  ∃ t', stride_pool config (VTensor2 t) (AxisInt axis) = VTensor2 t'
    ∧ length t' = pooled_len config (length t)
    ∧ ∀ i, i < length t' →
        t' !! i = t !! (if separate_cls config then 2 * i - 1 else 2 * i).
Proof.
  intros Haxis. exists (stride_slice config t).
  split; [by simpl; rewrite Haxis|].
  split; [apply length_stride_slice|].
  intros i Hi. destruct (separate_cls config) eqn:Hsep.
  - destruct t as [|a l].
    { unfold stride_slice in Hi. rewrite Hsep in Hi.
      destruct (truncate_seq config); simpl in Hi; lia. }
    rewrite stride_slice_cons in Hi |- * by done.
    destruct i as [|i]; [done|].
    replace (2 * S i - 1) with (S (2 * i)) by lia.
    rewrite !lookup_cons_ne_0 by done. cbn [pred].
    rewrite lookup_every_second.
    cbn [length] in Hi. rewrite length_every_second in Hi.
    destruct (truncate_seq config); [|done].
    rewrite length_take in Hi.
    pose proof (ceil_div_2_bounds ((length l - 1) `min` length l)).
    apply lookup_take_lt. lia.
  - rewrite stride_slice_no_cls by done. apply lookup_every_second.
Qed.

Lemma stride_pool_rows_witness :
  ∃ t', stride_pool config_small (VTensor2 [[0]; [1]; [2]; [3]; [4]]) (AxisInt (-2))
          = VTensor2 t'
    ∧ length t' = pooled_len config_small 5
    ∧ ∀ i, i < length t' →
        t' !! i = [[0]; [1]; [2]; [3]; [4]] !! (if separate_cls config_small
                                                then 2 * i - 1 else 2 * i).
Proof. apply (stride_pool_rows config_small [[0]; [1]; [2]; [3]; [4]] (-2)). reflexivity. Defined.

Lemma cls_mask_of_closed (m : nat) :
  cls_mask_of (S m) = replicate (S m) 0%Q :: replicate m (0%Q :: replicate m 1%Q).
Proof.
  unfold cls_mask_of, F_pad2d, new_ones. simpl. rewrite Nat.sub_0_r, app_nil_r.
  f_equal; [by rewrite Nat.add_0_r|].
  rewrite fmap_replicate. simpl. by rewrite app_nil_r.
Qed.

Lemma stride_slice_cons_replicate (config : FunnelConfig) {A} (a b : A) (m : nat) :
  separate_cls config = true →
  stride_slice config (a :: replicate m b)
  = a :: replicate (pooled_len config (S m) - 1) b.
Proof.
  intros Hsep. rewrite stride_slice_cons by done.
  pose proof (length_stride_slice config (a :: replicate m b)) as Hlen.
  rewrite stride_slice_cons in Hlen by done.
  cbn [length] in Hlen. rewrite length_replicate in Hlen. rewrite <-Hlen.
  cbn [Nat.sub]. rewrite Nat.sub_0_r. f_equal.
  destruct (truncate_seq config).
  - rewrite length_replicate, take_replicate, every_second_replicate.
    by rewrite length_replicate.
  - rewrite every_second_replicate. by rewrite length_replicate.
Qed.

(** X8.  With a separate class token, the class-token mask keeps its form
    under pooling.  For the mask of a sequence of length [n >= 1], the
    [n x n] matrix whose first row and first column are 0 and whose other
    entries are 1, [stride_pool] on the axes [[1, 2]] (as in
    [pre_attention_pooling]) and on axis 0 followed by axis 1 (as in
    [pre_attention_pooling] and [post_attention_pooling] under [pool_q_only])
    both return the matrix of the same form for the pooled length. *)
Theorem cls_mask_stride_pool (config : FunnelConfig) (n : nat) :
  separate_cls config = true → 1 ≤ n →
  stride_pool config (VTensor2 (cls_mask_of n)) (AxisSeq [1; 2]%Z)
  = VTensor2 (cls_mask_of (pooled_len config n))
  ∧ stride_pool config (stride_pool config (VTensor2 (cls_mask_of n)) (AxisInt 0))
      (AxisInt 1)
    = VTensor2 (cls_mask_of (pooled_len config n)).
Proof.
  intros Hsep Hn. destruct n as [|m]; [lia|].
  assert (Hpooled : stride_slice config
                      ((λ row : list Q, stride_slice config row) <$> cls_mask_of (S m))
                    = cls_mask_of (pooled_len config (S m))).
  { assert (Hp : pooled_len config (S m) = S (pooled_len config (S m) - 1)).
    { pose proof (length_stride_slice config (0%Q :: replicate m 1%Q)) as Hlen.
      rewrite stride_slice_cons in Hlen by done. cbn [length] in Hlen.
      rewrite length_replicate in Hlen. lia. }
    rewrite Hp at 1. rewrite !cls_mask_of_closed. csimpl.
    by rewrite fmap_replicate, !stride_slice_cons_replicate. }
  split.
  - exact (f_equal VTensor2 Hpooled).
  - rewrite <-Hpooled, <-stride_slice_rows_columns. reflexivity.
Qed.

Lemma cls_mask_stride_pool_witness :
  stride_pool config_small (VTensor2 (cls_mask_of 5)) (AxisSeq [1; 2]%Z)
  = VTensor2 (cls_mask_of (pooled_len config_small 5))
  ∧ stride_pool config_small (stride_pool config_small (VTensor2 (cls_mask_of 5)) (AxisInt 0))
      (AxisInt 1)
    = VTensor2 (cls_mask_of (pooled_len config_small 5)).
Proof. apply (cls_mask_stride_pool config_small 5); [reflexivity|lia]. Defined.

(** X9.  Stride pooling commutes with [token_type_ids_to_mat]: pooling the
    matrix of a batch of token type ids on the axes [[1, 2]] gives the matrix
    of the ids pooled on axis 1, so the pooled [token_type_mat] is the
    same-segment matrix of the tokens that are kept. *)
Theorem stride_pool_token_type_mat (config : FunnelConfig) (token_type_ids : Tensor2 Z) :
  ∃ pooled_ids,
    stride_pool config (VTensor2 token_type_ids) (AxisInt 1) = VTensor2 pooled_ids
    ∧ stride_pool config (VTensor3 (token_type_ids_to_mat token_type_ids))
        (AxisSeq [1; 2]%Z)
      = VTensor3 (token_type_ids_to_mat pooled_ids).
Proof.
  eexists. split; [reflexivity|]. simpl. f_equal.
  rewrite !token_type_ids_to_mat_closed, <-!list_fmap_compose.
  apply list_fmap_ext; intros _ row _. unfold compose. cbn beta.
  rewrite stride_slice_fmap, <-list_fmap_compose.
  apply list_fmap_ext; intros _ x _. unfold compose. cbn beta.
  by rewrite stride_slice_fmap.
Qed.

Lemma foldl_stride_pool_axis_None (config : FunnelConfig) {A} (axes : list Z) :
  foldl (stride_pool_axis config) (@VNone A) axes = VNone.
Proof. by induction axes. Qed.

Lemma stride_pool_foldl (config : FunnelConfig) {A} (tensor : PyValue A) (axes : list Z) :
  stride_pool config tensor (AxisSeq axes) = foldl (stride_pool_axis config) tensor axes.
Proof. destruct tensor; simpl; by rewrite ?foldl_stride_pool_axis_None. Qed.

Lemma stride_pool_axis_int (config : FunnelConfig) {A} (tensor : PyValue A) (axis : Z) :
  stride_pool config tensor (AxisInt axis) = stride_pool_axis config tensor axis.
Proof. by destruct tensor. Qed.

(** X10.  [stride_pool] on a tuple or a list returns a tuple or a list of
    the same length whose elements are the elements pooled, for an int axis
    and for a list of axes (where the whole tuple is pooled once per axis),
    and it leaves [None] elements in place. *)
Theorem stride_pool_elementwise (config : FunnelConfig) {A} (l : list (PyValue A))
    (axis : Axis) :
  stride_pool config (VTuple l) axis = VTuple ((λ x, stride_pool config x axis) <$> l)
  ∧ stride_pool config (VList l) axis = VList ((λ x, stride_pool config x axis) <$> l)
  ∧ stride_pool config (@VNone A) axis = VNone.
Proof.
  destruct axis as [axis|axes].
  - repeat split.
    + simpl. f_equal. apply list_fmap_ext; intros _ x _. by rewrite stride_pool_axis_int.
    + simpl. f_equal. apply list_fmap_ext; intros _ x _. by rewrite stride_pool_axis_int.
  - rewrite !stride_pool_foldl.
    erewrite (list_fmap_ext (λ x, stride_pool config x (AxisSeq axes)))
      by (intros; apply stride_pool_foldl).
    repeat split; [| |apply foldl_stride_pool_axis_None].
    + revert l. induction axes as [|axis axes IH]; intros l; csimpl.
      * by rewrite list_fmap_id.
      * by rewrite IH, <-list_fmap_compose.
    + revert l. induction axes as [|axis axes IH]; intros l; csimpl.
      * by rewrite list_fmap_id.
      * by rewrite IH, <-list_fmap_compose.
Qed.

(** ** Position ids and the relative-shift attention *)

Lemma lookup_progression (start step : Z) (n t : nat) :
  t < n → progression start step n !! t = Some (start + Z.of_nat t * step)%Z.
Proof.
  intros Ht. unfold progression. rewrite list_lookup_fmap, lookup_seq_lt by done.
  done.
Qed.

Lemma lookup_progression_ge (start step : Z) (n t : nat) :
  n ≤ t → progression start step n !! t = None.
Proof.
  intros Ht. unfold progression. rewrite list_lookup_fmap, lookup_seq_ge by done.
  done.
Qed.

Lemma length_progression (start step : Z) (n : nat) :
  length (progression start step n) = n.
Proof. unfold progression. by rewrite length_fmap, length_seq. Qed.

Lemma progression_ext (start step start' step' : Z) (n n' : nat) :
  n = n' → (∀ t, t < n → (start + Z.of_nat t * step = start' + Z.of_nat t * step')%Z) →
  progression start step n = progression start' step' n'.
Proof.
  intros <- Heq. unfold progression. apply list_fmap_ext. intros i t Ht.
  apply lookup_seq in Ht as [-> Ht]. by apply Heq.
Qed.

Lemma list_eq_progression (l : list Z) (start step : Z) (n : nat) :
  length l = n →
  (∀ t, t < n → l !! t = Some (start + Z.of_nat t * step)%Z) →
  l = progression start step n.
Proof.
  intros Hlen Hl. apply list_eq. intros t.
  destruct (decide (t < n)) as [Hlt|Hge].
  - by rewrite Hl, lookup_progression.
  - rewrite lookup_progression_ge by lia. apply lookup_ge_None. lia.
Qed.

Lemma every_second_progression (start step : Z) (n : nat) :
  every_second (progression start step n) = progression start (2 * step) (ceil_div n 2).
Proof.
  pose proof (ceil_div_2_bounds n) as Hn.
  apply list_eq_progression.
  - by rewrite length_every_second, length_progression.
  - intros t Ht. rewrite lookup_every_second, lookup_progression by lia.
    f_equal. lia.
Qed.

Lemma drop_progression (start step : Z) (n : nat) :
  drop 1 (progression start step n) = progression (start + step) step (n - 1).
Proof.
  apply list_eq_progression.
  - by rewrite length_drop, length_progression.
  - intros t Ht. rewrite lookup_drop, lookup_progression by lia. f_equal. lia.
Qed.

Lemma take_progression (start step : Z) (n k : nat) :
  take k (progression start step n) = progression start step (min k n).
Proof.
  apply list_eq_progression.
  - by rewrite length_take, length_progression.
  - intros t Ht. rewrite lookup_take_lt, lookup_progression by lia. done.
Qed.

Lemma progression_cons (start step : Z) (n : nat) :
  start :: progression (start + step) step n = progression start step (S n).
Proof.
  apply list_eq_progression.
  - simpl. by rewrite length_progression.
  - intros [|t] Ht; simpl; [f_equal; lia|].
    rewrite lookup_progression by lia. f_equal. lia.
Qed.

Lemma ceil_div_add_2 (a : nat) : ceil_div (a + 2) 2 = S (ceil_div a 2).
Proof.
  unfold ceil_div. replace (a + 2 + (2 - 1)) with (a + (2 - 1) + 1 * 2) by lia.
  rewrite Nat.div_add by done. lia.
Qed.

(** One call of [stride_pool_pos] on the position ids of a block. *)
Lemma stride_pool_pos_progression (config : FunnelConfig) (k m : nat) :
  1 ≤ m →
  stride_pool_pos config (progression (first_pos config k) (2 ^ Z.of_nat k) m) (S k)
  = progression (first_pos config (S k)) (2 ^ Z.of_nat (S k)) (pooled_len config m).
Proof.
  intros Hm. unfold stride_pool_pos, first_pos, pooled_len.
  rewrite Nat2Z.inj_succ, Z.pow_succ_r by lia.
  set (p := (2 ^ Z.of_nat k)%Z).
  destruct (separate_cls config); [|apply every_second_progression].
  rewrite length_progression, drop_progression, take_progression.
  replace (- (2 * p) + 1)%Z with (1 - 2 * p)%Z by lia.
  replace (1 - p + p)%Z with (1 - 2 * p + 2 * p)%Z by lia.
  replace (1 `min` m) with 1 by lia.
  destruct (truncate_seq config).
  - rewrite every_second_progression. cbn [app]. rewrite progression_cons.
    f_equal. destruct m as [|[|m]]; [lia|done|].
    rewrite <-ceil_div_add_2. f_equal. lia.
  - rewrite every_second_progression. cbn [app]. rewrite progression_cons.
    f_equal. rewrite <-ceil_div_add_2. f_equal. lia.
Qed.

Lemma block_pos_closed (config : FunnelConfig) (n k : nat) :
  1 ≤ n →
  block_pos config n k
  = progression (first_pos config k) (2 ^ Z.of_nat k) (block_len config n k).
Proof.
  intros Hn. induction k as [|k IH].
  - simpl. unfold first_pos, progression.
    apply list_fmap_ext. intros _ t _. destruct (separate_cls config); simpl; lia.
  - cbn [block_pos block_len]. rewrite IH.
    apply stride_pool_pos_progression, block_len_bounds, Hn.
Qed.

(** X11.  The position ids of the blocks, as [get_position_embeds] computes
    them with [stride_pool_pos] from [arange(0, seq_len)], [seq_len >= 1]: in
    block [k] they are the arithmetic progression of step [2^k] that starts
    at [1 - 2^k] with a separate class token (so that the second position is
    always 1) and at 0 without one.  There are [block_len config seq_len k]
    of them, the length of a sequence of [seq_len] tokens pooled [k] times:
    the position ids are pooled at every block, the hidden state only when
    it is longer than the pooling threshold, so this is the length of the
    hidden state of block [k] when the hidden states of all blocks before
    were longer than the threshold, and may be less otherwise. *)
Theorem block_pos_progression (config : FunnelConfig) (seq_len k : nat) :
  1 ≤ seq_len →
  length (block_pos config seq_len k) = block_len config seq_len k
  ∧ (∀ i, i < block_len config seq_len k →
       block_pos config seq_len k !! i
       = Some (if separate_cls config
               then 1 + (Z.of_nat i - 1) * 2 ^ Z.of_nat k
               else Z.of_nat i * 2 ^ Z.of_nat k)%Z)
  ∧ ((∀ j, j < k → pooling_threshold config < block_len config seq_len j) →
     block_len config seq_len k = encoder_len config seq_len k).
Proof.
  intros Hn. rewrite block_pos_closed by done.
  split; [apply length_progression|]. split.
  - intros i Hi. rewrite lookup_progression by done. unfold first_pos.
    destruct (separate_cls config); f_equal; lia.
  - induction k as [|k IH]; intros Hlong; [done|].
    cbn [block_len encoder_len]. rewrite <-IH by (intros j Hj; apply Hlong; lia).
    unfold next_len.
    destruct (Nat.ltb_spec (pooling_threshold config) (block_len config seq_len k))
      as [_|Hle]; [done|].
    specialize (Hlong k ltac:(lia)). lia.
Qed.

Lemma block_pos_progression_witness :
  length (block_pos config_small 9 2) = block_len config_small 9 2
  ∧ (∀ i, i < block_len config_small 9 2 →
       block_pos config_small 9 2 !! i
       = Some (if separate_cls config_small
               then 1 + (Z.of_nat i - 1) * 2 ^ Z.of_nat 2
               else Z.of_nat i * 2 ^ Z.of_nat 2)%Z)
  ∧ ((∀ j, j < 2 → pooling_threshold config_small < block_len config_small 9 j) →
     block_len config_small 9 2 = encoder_len config_small 9 2).
Proof. apply (block_pos_progression config_small 9 2). lia. Defined.

Lemma head_progression (start step : Z) (n : nat) :
  1 ≤ n → list.head (progression start step n) = Some start.
Proof.
  intros Hn. rewrite head_lookup, lookup_progression by lia. f_equal. lia.
Qed.

Lemma last_progression (start step : Z) (n : nat) :
  1 ≤ n →
  list.last (progression start step n) = Some (start + (Z.of_nat n - 1) * step)%Z.
Proof.
  intros Hn. rewrite last_lookup, length_progression, lookup_progression by lia.
  by replace (Z.of_nat (pred n)) with (Z.of_nat n - 1)%Z by lia.
Qed.

(** [relative_pos] between the position ids of the keys, a progression of
    step [stride], and those of the queries, a progression of step
    [shift * stride]. *)
Lemma relative_pos_progression (p0 q0 stride : Z) (shift s m : nat) :
  (1 ≤ stride)%Z → 1 ≤ s → 1 ≤ m →
  relative_pos (progression p0 stride m) stride
    (Some (progression q0 (Z.of_nat shift * stride) s)) (Z.of_nat shift)
  = inr (progression (q0 - p0 + Z.of_nat (shift * s) * stride) (- stride) (shift * s + m)).
Proof.
  intros Hstride Hs Hm. unfold relative_pos, default, id. cbn [from_option].
  rewrite !head_progression, last_progression, length_progression by done.
  rewrite ops_arange_descending by done.
  f_equal.
  set (a := (q0 - p0 + Z.of_nat shift * Z.of_nat s * stride)%Z).
  replace ((a - (q0 - (p0 + (Z.of_nat m - 1) * stride))) / stride + 1)%Z
    with (Z.of_nat (shift * s + m)).
  - rewrite Nat2Z.id. unfold progression. apply list_fmap_ext. intros _ t _.
    subst a. lia.
  - subst a.
    replace (q0 - p0 + Z.of_nat shift * Z.of_nat s * stride
             - (q0 - (p0 + (Z.of_nat m - 1) * stride)))%Z
      with ((Z.of_nat shift * Z.of_nat s + Z.of_nat m - 1) * stride)%Z by lia.
    rewrite Z.div_mul by lia. lia.
Qed.

(** The entry [(i, j)] of the output of [_relative_shift_gather] on scores
    of shape [[B, H, s, shift*s + m]] with [context_len = m]. *)
Lemma relative_shift_gather_lookup {A} (positional_attn : Tensor4 A)
    (batch_size n_head s m shift b h i j : nat) :
  has_shape4 positional_attn batch_size n_head s (shift * s + m) →
  b < batch_size → h < n_head → i < s → j < m →
  ∃ output,
    _relative_shift_gather positional_attn m shift = inr output
    ∧ is_Some (get4 output b h i j)
    ∧ get4 output b h i j = get4 positional_attn b h i (shift * (s - i) + j).
Proof.
  intros Ht Hb Hh Hi Hj.
  eexists. split; [apply (relative_shift_gather_closed _ _ _ _ _ _ _ Ht); nia|].
  rewrite get4_fmap_matrices. unfold get4.
  destruct Ht as [Hlen Hall].
  destruct (lookup_lt_is_Some_2 positional_attn b ltac:(lia)) as [x Hx].
  rewrite Hx. simpl.
  destruct (Forall_lookup_1 _ _ _ _ Hall Hx) as [Hxlen Hmats].
  destruct (lookup_lt_is_Some_2 x h ltac:(lia)) as [mat Hm].
  rewrite Hm. simpl.
  pose proof (Forall_lookup_1 _ _ _ _ Hmats Hm) as Hshape.
  rewrite (lookup_gathered_matrix mat s (shift * s + m)) by (done || nia).
  split; [|done].
  destruct Hshape as [Hrows Hcols].
  destruct (lookup_lt_is_Some_2 mat i ltac:(lia)) as [row Hrow].
  rewrite Hrow. simpl. apply lookup_lt_is_Some_2.
  rewrite (Forall_lookup_1 _ _ _ _ Hcols Hrow). nia.
Qed.

(** X12.  The relative-shift attention of a block without pooling reads the
    right score.  In block [k] of a model on [seq_len >= 1] tokens, with [m]
    the number of position ids of the block, [relative_pos(pos, 2^k)] returns
    [2*m] relative positions, and on scores of shape [[B, H, m, 2*m]], one
    column per relative position, [_relative_shift_gather] with [shift = 1]
    puts at [(i, j)] the score of the column whose relative position is
    [pos[i] - pos[j]]. *)
Theorem relative_shift_attention {A} (config : FunnelConfig) (seq_len k : nat)
    (positional_attn : Tensor4 A) (batch_size n_head b h i j : nat) :
  1 ≤ seq_len →
  let pos := block_pos config seq_len k in
  let m := length pos in
  has_shape4 positional_attn batch_size n_head m (2 * m) →
  b < batch_size → h < n_head → i < m → j < m →
  ∃ rel_pos output t pos_i pos_j,
    relative_pos pos (2 ^ Z.of_nat k) None 1 = inr rel_pos
    ∧ length rel_pos = 2 * m
    ∧ _relative_shift_gather positional_attn m 1 = inr output
    ∧ is_Some (get4 output b h i j)
    ∧ get4 output b h i j = get4 positional_attn b h i t
    ∧ pos !! i = Some pos_i ∧ pos !! j = Some pos_j
    ∧ rel_pos !! t = Some (pos_i - pos_j)%Z.
Proof.
  intros Hn pos m. subst pos m. rewrite block_pos_closed by done.
  rewrite length_progression.
  set (m := block_len config seq_len k). set (p := (2 ^ Z.of_nat k)%Z).
  assert (Hp : (1 ≤ p)%Z) by (subst p; lia).
  intros Ht Hb Hh Hi Hj.
  pose proof (relative_pos_progression (first_pos config k) (first_pos config k)
                p 1 m m Hp ltac:(lia) ltac:(lia)) as Hrel.
  replace (Z.of_nat 1 * p)%Z with p in Hrel by lia.
  replace (2 * m) with (1 * m + m) in Ht |- * by lia.
  destruct (relative_shift_gather_lookup positional_attn batch_size n_head m m 1 b h i j
              Ht Hb Hh Hi Hj) as (output & Hout & Hsome & Hget).
  eexists _, output, (1 * (m - i) + j), _, _.
  split; [exact Hrel|]. split; [apply length_progression|].
  split; [exact Hout|]. split; [exact Hsome|]. split; [exact Hget|].
  split; [by apply lookup_progression|]. split; [by apply lookup_progression|].
  rewrite lookup_progression by lia. f_equal. nia.
Qed.

Lemma relative_shift_attention_witness :
  ∃ rel_pos output t pos_i pos_j,
    relative_pos (block_pos config_small 4 0) (2 ^ Z.of_nat 0) None 1 = inr rel_pos
    ∧ length rel_pos = 2 * length (block_pos config_small 4 0)
    ∧ _relative_shift_gather positional_attn_4_4 (length (block_pos config_small 4 0)) 1
      = inr output
    ∧ is_Some (get4 output 0 0 2 1)
    ∧ get4 output 0 0 2 1 = get4 positional_attn_4_4 0 0 2 t
    ∧ block_pos config_small 4 0 !! 2 = Some pos_i
    ∧ block_pos config_small 4 0 !! 1 = Some pos_j
    ∧ rel_pos !! t = Some (pos_i - pos_j)%Z.
Proof.
  apply (relative_shift_attention config_small 4 0 positional_attn_4_4 1 1 0 0 2 1);
    [lia | repeat constructor | simpl; lia..].
Defined.

(** X13.  The relative-shift attention of a pooled query reads the right
    score.  With [pos] the position ids of block [k] (the keys, [m] of them)
    and [pooled_pos] those of block [k+1] (the queries, [s] of them),
    [relative_pos(pos, 2^k, pooled_pos, shift=2)] returns [2*s + m] relative
    positions, and on scores of shape [[B, H, s, 2*s + m]]
    [_relative_shift_gather] with [shift = 2] puts at [(i, j)] the score of
    the column whose relative position is [pooled_pos[i] - pos[j]]. *)
Theorem relative_shift_attention_pooled {A} (config : FunnelConfig) (seq_len k : nat)
    (positional_attn : Tensor4 A) (batch_size n_head b h i j : nat) :
  1 ≤ seq_len →
  let pos := block_pos config seq_len k in
  let pooled_pos := block_pos config seq_len (S k) in
  let m := length pos in
  let s := length pooled_pos in
  has_shape4 positional_attn batch_size n_head s (2 * s + m) →
  b < batch_size → h < n_head → i < s → j < m →
  ∃ rel_pos output t pos_i pos_j,
    relative_pos pos (2 ^ Z.of_nat k) (Some pooled_pos) 2 = inr rel_pos
    ∧ length rel_pos = 2 * s + m
    ∧ _relative_shift_gather positional_attn m 2 = inr output
    ∧ is_Some (get4 output b h i j)
    ∧ get4 output b h i j = get4 positional_attn b h i t
    ∧ pooled_pos !! i = Some pos_i ∧ pos !! j = Some pos_j
    ∧ rel_pos !! t = Some (pos_i - pos_j)%Z.
Proof.
  intros Hn pos pooled_pos m s. subst pos pooled_pos m s.
  rewrite !block_pos_closed by done. rewrite !length_progression.
  set (m := block_len config seq_len k). set (s := block_len config seq_len (S k)).
  rewrite Nat2Z.inj_succ, Z.pow_succ_r by lia.
  set (p := (2 ^ Z.of_nat k)%Z).
  assert (Hp : (1 ≤ p)%Z) by (subst p; lia).
  intros Ht Hb Hh Hi Hj.
  pose proof (relative_pos_progression (first_pos config k) (first_pos config (S k))
                p 2 s m Hp ltac:(lia) ltac:(lia)) as Hrel.
  change (Z.of_nat 2) with 2%Z in Hrel.
  destruct (relative_shift_gather_lookup positional_attn batch_size n_head s m 2 b h i j
              Ht Hb Hh Hi Hj) as (output & Hout & Hsome & Hget).
  eexists _, output, (2 * (s - i) + j), _, _.
  split; [exact Hrel|]. split; [apply length_progression|].
  split; [exact Hout|]. split; [exact Hsome|]. split; [exact Hget|].
  split; [by apply lookup_progression|]. split; [by apply lookup_progression|].
  rewrite lookup_progression by lia. f_equal. nia.
Qed.

Lemma relative_shift_attention_pooled_witness :
  ∃ rel_pos output t pos_i pos_j,
    relative_pos (block_pos config_small 3 0) (2 ^ Z.of_nat 0)
      (Some (block_pos config_small 3 1)) 2 = inr rel_pos
    ∧ length rel_pos
      = 2 * length (block_pos config_small 3 1) + length (block_pos config_small 3 0)
    ∧ _relative_shift_gather positional_attn_2_7 (length (block_pos config_small 3 0)) 2
      = inr output
    ∧ is_Some (get4 output 0 0 1 2)
    ∧ get4 output 0 0 1 2 = get4 positional_attn_2_7 0 0 1 t
    ∧ block_pos config_small 3 1 !! 1 = Some pos_i
    ∧ block_pos config_small 3 0 !! 2 = Some pos_j
    ∧ rel_pos !! t = Some (pos_i - pos_j)%Z.
Proof.
  apply (relative_shift_attention_pooled config_small 3 0 positional_attn_2_7 1 1 0 0 1 2);
    [lia | repeat constructor | simpl; lia..].
Defined.

(** ** Sequence lengths through the encoder and the model *)





















(** ** [pool_tensor]: the class token *)

Lemma cat_cls_closed {A} (config : FunnelConfig) (t : Tensor2 A) :
  separate_cls config = true →
  cat_cls config t
  = (λ row : list A,
       take 1 row ++ (if truncate_seq config then take (length row - 1) row else row))
      <$> t.
Proof.
  intros Hsep. unfold cat_cls, drop_last_token. rewrite Hsep.
  destruct (truncate_seq config).
  - apply zip_with_fmap_diag.
  - rewrite <-(list_fmap_id t) at 2. apply zip_with_fmap_diag.
Qed.

Lemma pool_tensor_rank3_closed (fuel : nat) (config : FunnelConfig) (t : Tensor3 Q)
    (mode : string) (k : nat) :
  supported_mode mode → k ≠ 0 →
  pool_tensor (S fuel) config (PTensor3 t) mode k
  = inr (PTensor3 ((λ row : Tensor2 Q, pool_rows mode k row) <$> cat_cls config t)).
Proof.
  intros Hmode Hk. simpl. rewrite pool_mode_closed by done. simpl.
  by rewrite <-!list_fmap_compose.
Qed.

Lemma windows_2_pair {A} (a b : A) (l : list A) :
  windows 2 (a :: b :: l) = [a; b] :: windows 2 l.
Proof.
  unfold windows. cbn [length].
  replace (S (S (length l))) with (length l + 2) by lia.
  by rewrite ceil_div_add_2.
Qed.

Lemma zip_with_Qmax_diag (v : list Q) : zip_with Qmax v v = v.
Proof.
  induction v as [|x v IH]; [done|]. simpl. rewrite IH. f_equal.
  unfold Qmax, GenericMinMax.gmax. by destruct (x ?= x)%Q.
Qed.

Lemma fmap_Qopp_opp (v : list Q) : Qopp <$> (Qopp <$> v) = v.
Proof.
  induction v as [|x v IH]; csimpl; [done|]. by rewrite IH, Qopp_opp_eq.
Qed.

(** The first pooling window of stride 2 holds the class token alone or
    twice, and each mode maps it to the class token. *)
Lemma pool_rows_class_token (mode : string) (v : list Q) (rest : Tensor2 Q) :
  supported_mode mode → rest = [] ∨ (∃ rest', rest = v :: rest') →
  ∃ v', list.head (pool_rows mode 2 (v :: rest)) = Some v' ∧ Forall2 Qeq v' v.
Proof.
  intros Hmode Hrest.
  assert (Hdiv1 : Forall2 Qeq ((λ x, x / inject_Z (Z.of_nat 1))%Q <$> v) v).
  { apply Forall2_fmap_l, Forall_Forall2_diag, Forall_forall. intros x _.
    simpl. change (inject_Z 1) with 1%Q. field. }
  assert (Hrefl : Forall2 Qeq v v).
  { apply Forall_Forall2_diag, Forall_forall. intros x _. apply Qeq_refl. }
  destruct Hrest as [-> | [rest' ->]], Hmode as [-> | [-> | ->]].
  - eexists. split; [reflexivity|]. exact Hdiv1.
  - eexists. split; [reflexivity|]. exact Hrefl.
  - eexists. split; [reflexivity|]. simpl. by rewrite fmap_Qopp_opp.
  - unfold pool_rows. simpl String.eqb. cbv iota. rewrite windows_2_pair.
    eexists. split; [reflexivity|]. apply mean_rows_twice.
  - unfold pool_rows. simpl String.eqb. cbv iota. rewrite windows_2_pair.
    eexists. split; [reflexivity|]. simpl. by rewrite zip_with_Qmax_diag.
  - unfold pool_rows. simpl String.eqb. cbv iota. csimpl. rewrite windows_2_pair.
    eexists. split; [reflexivity|]. simpl.
    by rewrite zip_with_Qmax_diag, fmap_Qopp_opp.
Qed.

(** X16.  [pool_tensor] keeps the class token.  With a separate class token
    and the stride 2 of the model, in every supported mode, position 0 of
    every row of the pooled hidden state [[B, T, H]] is the vector at
    position 0 of the input row (up to equality of rationals): the first
    window holds the class token and its own copy, with and without
    [truncate_seq]. *)
Theorem pool_tensor_keeps_class_token (fuel : nat) (config : FunnelConfig)
    (mode : string) (t : Tensor3 Q) :
  separate_cls config = true → supported_mode mode →
  ∃ t', pool_tensor (S fuel) config (PTensor3 t) mode 2 = inr (PTensor3 t')
    ∧ Forall2 (λ row' row,
                 ∀ v, list.head row = Some v →
                      ∃ v', list.head row' = Some v' ∧ Forall2 Qeq v' v) t' t.
Proof.
  intros Hsep Hmode. rewrite pool_tensor_rank3_closed by done.
  eexists. split; [reflexivity|]. rewrite cat_cls_closed by done.
  rewrite <-list_fmap_compose.
  apply Forall2_fmap_l, Forall_Forall2_diag, Forall_forall. intros row _ v Hv.
  unfold compose. cbn beta.
  destruct row as [|c rest]; simplify_eq/=.
  apply pool_rows_class_token; [done|].
  destruct (truncate_seq config); [|by right; eexists].
  rewrite Nat.sub_0_r. destruct rest as [|r rest]; [by left|].
  right. by eexists.
Qed.

Lemma pool_tensor_keeps_class_token_witness :
  ∃ t', pool_tensor 1 config_small (PTensor3 [[[7; 8]; [1; 2]; [3; 4]]%Q]) "max" 2
          = inr (PTensor3 t')
    ∧ Forall2 (λ row' row,
                 ∀ v, list.head row = Some v →
                      ∃ v', list.head row' = Some v' ∧ Forall2 Qeq v' v)
        t' [[[7; 8]; [1; 2]; [3; 4]]%Q].
Proof.
  apply (pool_tensor_keeps_class_token 0 config_small "max" [[[7; 8]; [1; 2]; [3; 4]]%Q]).
  - reflexivity.
  - right. left. reflexivity.
Defined.

(** ** The question-answering head *)






(** ** Token-type attention *)

Lemma lookup_cls_mask_of (n i j : nat) :
  i < n → j < n →
  (r ← cls_mask_of n !! i; r !! j)
  = Some (if decide (i = 0 ∨ j = 0) then 0%Q else 1%Q).
Proof.
  intros Hi Hj. destruct n as [|m]; [lia|]. rewrite cls_mask_of_closed.
  destruct i as [|i].
  - change (replicate (S m) 0%Q !! j
            = Some (if decide (0 = 0 ∨ j = 0) then 0%Q else 1%Q)).
    rewrite lookup_replicate_2 by lia.
    destruct (decide (0 = 0 ∨ j = 0)) as [|Hne]; [done|]. destruct Hne. by left.
  - change ((r ← replicate m (0%Q :: replicate m 1%Q) !! i; r !! j)
            = Some (if decide (S i = 0 ∨ j = 0) then 0%Q else 1%Q)).
    rewrite lookup_replicate_2 by lia.
    destruct j as [|j].
    + destruct (decide (S i = 0 ∨ 0 = 0)) as [|Hne]; [done|]. destruct Hne. by right.
    + change (replicate m 1%Q !! j
              = Some (if decide (S i = 0 ∨ S j = 0) then 0%Q else 1%Q)).
      rewrite lookup_replicate_2 by lia.
      destruct (decide (S i = 0 ∨ S j = 0)) as [[|]|]; done.
Qed.

(** X19.  The token-type attention bias, end to end.  For token type ids
    [[B, n]], the matrix [token_type_ids_to_mat] makes of them and the
    [cls_mask] of a sequence of length [n], the entry [(b, h, i, j)] of
    [relative_token_type_attention] is 0 when [i] or [j] is the position of
    the class token (position 0), and otherwise the same-segment bias of
    query [i] when the ids at [i] and [j] are equal or one of them is the
    class-token type id 2, and its different-segment bias when they
    differ. *)
Theorem relative_token_type_attention_spec (token_type_ids : Tensor2 Z)
    (token_type_bias : Tensor3 (Q * Q)) (n b h i j : nat)
    (row : list Z) (x y : Z) (bias : Tensor2 (Q * Q)) (bias_head : list (Q * Q))
    (diff same : Q) :
  token_type_ids !! b = Some row → length row = n →
  row !! i = Some x → row !! j = Some y →
  token_type_bias !! b = Some bias → bias !! h = Some bias_head →
  bias_head !! i = Some (diff, same) →
  ∃ token_type_attn v,
    relative_token_type_attention (Some (token_type_ids_to_mat token_type_ids))
      token_type_bias (Some (cls_mask_of n)) = Some token_type_attn
    ∧ get4 token_type_attn b h i j = Some v
    ∧ (v == if decide (i = 0 ∨ j = 0)%nat then 0
            else if (x =? 2)%Z || (y =? 2)%Z || (x =? y)%Z then same else diff)%Q.
Proof.
  intros Hrow Hlen Hx Hy Hbias Hhead Hpair.
  assert (Hi : i < n) by (rewrite <-Hlen; by eapply lookup_lt_Some).
  assert (Hj : j < n) by (rewrite <-Hlen; by eapply lookup_lt_Some).
  unfold relative_token_type_attention.
  rewrite token_type_ids_to_mat_closed.
  eexists _, _. split; [reflexivity|]. unfold get4.
  rewrite list_lookup_fmap, lookup_zip_with, list_lookup_fmap, Hrow, Hbias. simpl.
  rewrite !list_lookup_fmap, Hhead. simpl.
  rewrite lookup_zip_with, lookup_zip_with, list_lookup_fmap, Hx, Hpair. simpl.
  pose proof (lookup_cls_mask_of n i j Hi Hj) as Hmask.
  destruct (cls_mask_of n !! i) as [mask_row|]; [|done]. simpl in Hmask |- *.
  rewrite lookup_zip_with, !list_lookup_fmap, Hy, Hmask. simpl.
  split; [reflexivity|].
  unfold cls_token_type_id.
  destruct (decide (i = 0 ∨ j = 0)); [ring|].
  destruct ((x =? 2)%Z || (y =? 2)%Z || (x =? y)%Z); simpl; ring.
Qed.

Lemma relative_token_type_attention_spec_witness :
  ∃ token_type_attn v,
    relative_token_type_attention (Some (token_type_ids_to_mat [[2; 0; 0; 1]%Z]))
      [[[(1, 5); (2, 6); (3, 7); (4, 8)]%Q]] (Some (cls_mask_of 4)) = Some token_type_attn
    ∧ get4 token_type_attn 0 0 1 3 = Some v
    ∧ (v == if decide (1 = 0 ∨ 3 = 0)%nat then 0
            else if (0 =? 2)%Z || (1 =? 2)%Z || (0 =? 1)%Z then 6 else 2)%Q.
Proof.
  apply (relative_token_type_attention_spec [[2; 0; 0; 1]%Z]
           [[[(1, 5); (2, 6); (3, 7); (4, 8)]%Q]] 4 0 0 1 3 [2; 0; 0; 1]%Z 0 1
           [[(1, 5); (2, 6); (3, 7); (4, 8)]%Q] [(1, 5); (2, 6); (3, 7); (4, 8)]%Q 2 6);
    reflexivity.
Defined.

(** ** Pooling the attention inputs: before and after the attention *)

Lemma stride_pool_twice (config : FunnelConfig) {A} (tensor : PyValue A) (axis1 axis2 : Z) :
  stride_pool config (stride_pool config tensor (AxisInt axis1)) (AxisInt axis2)
  = stride_pool config tensor (AxisSeq [axis1; axis2]).
Proof. by rewrite !stride_pool_axis_int, stride_pool_foldl. Qed.

Lemma stride_pool_cls_mask_axes (config : FunnelConfig) (cls_mask : option (Tensor2 Q)) :
  stride_pool config
    (stride_pool config (from_option VTensor2 VNone cls_mask) (AxisInt 0)) (AxisInt 1)
  = stride_pool config (from_option VTensor2 VNone cls_mask) (AxisSeq [1; 2]%Z).
Proof.
  destruct cls_mask as [t|]; [|done]. simpl. f_equal. apply stride_slice_rows_columns.
Qed.

Lemma pool_tensor_min_mask (fuel : nat) (config : FunnelConfig)
    (attention_mask : option (Tensor2 Q)) :
  ∃ mask', pool_tensor (S fuel) config (from_option PTensor2 PNone attention_mask) "min" 2
           = inr mask'.
Proof.
  destruct attention_mask as [t|]; [|by eexists].
  eexists. apply pool_tensor_rank2_closed; [|done]. right. right. reflexivity.
Qed.

(** X20.  [pool_q_only] changes when the attention inputs are pooled, not
    what they become.  For a hidden state [[B, T, H]] and attention inputs
    whose [token_type_mat], [attention_mask] and [cls_mask] are [None] or
    tensors of rank 3, 2 and 2, [pre_attention_pooling] followed by
    [post_attention_pooling] raises nothing and returns, with and without
    [pool_q_only], the pooled hidden state, every position embedding of the
    factorized attention pooled on axis 0, [token_type_mat] and [cls_mask]
    pooled on the axes [[1, 2]] and the attention mask pooled with [min]. *)
Theorem attention_pooling_schedule (fuel : nat) (config : FunnelConfig)
    (output : Tensor3 Q) (position_embeds : list (PyValue Q)) (inputs : AttentionInputs) :
  supported_mode (pooling_type config) →
  let attention_inputs := attention_values position_embeds inputs in
  ∃ output' attention_mask',
    pool_tensor (S fuel) config (PTensor3 output) (pooling_type config) 2 = inr output'
    ∧ pool_tensor (S fuel) config (av_attention_mask attention_inputs) "min" 2
      = inr attention_mask'
    ∧ bindR (pre_attention_pooling_values (S fuel) config (PTensor3 output) attention_inputs)
        (λ r, bindR (post_attention_pooling_values (S fuel) config (snd r))
                (λ attention_inputs', inr (fst r, attention_inputs')))
      = inr (output',
             {| av_position_embeds :=
                  match attention_type config with
                  | factorized =>
                      (λ x, stride_pool config x (AxisInt 0)) <$> position_embeds
                  | relative_shift => position_embeds
                  end;
                av_token_type_mat :=
                  stride_pool config (av_token_type_mat attention_inputs) (AxisSeq [1; 2]%Z);
                av_attention_mask := attention_mask';
                av_cls_mask :=
                  stride_pool config (av_cls_mask attention_inputs) (AxisSeq [1; 2]%Z) |}).
Proof.
  intros Hmode attention_inputs.
  destruct (pool_tensor_min_mask fuel config (attention_mask inputs)) as [mask' Hmask].
  exists (PTensor3 ((λ row : Tensor2 Q, pool_rows (pooling_type config) 2 row)
                      <$> cat_cls config output)), mask'.
  assert (Hout := pool_tensor_rank3_closed fuel config output (pooling_type config) 2
                    Hmode ltac:(done)).
  split; [exact Hout|]. split; [exact Hmask|].
  assert (Hembeds : ∀ l : list (PyValue Q),
            tuple_items (stride_pool config (VTuple l) (AxisInt 0))
            = (λ x, stride_pool config x (AxisInt 0)) <$> l).
  { intros l. simpl. apply list_fmap_ext. intros _ x _. by rewrite stride_pool_axis_int. }
  unfold pre_attention_pooling_values, post_attention_pooling_values.
  destruct (pool_q_only config) eqn:Hq.
  - rewrite Hout. cbn [bindR snd fst].
    cbn [av_position_embeds av_token_type_mat av_attention_mask av_cls_mask
         attention_inputs attention_values].
    rewrite Hmask. cbn [bindR]. f_equal. f_equal.
    rewrite stride_pool_twice, stride_pool_cls_mask_axes. f_equal.
    destruct (attention_type config); [|done].
    rewrite !Hembeds. destruct position_embeds as [|a [|b l]]; done.
  - cbn [av_position_embeds av_token_type_mat av_attention_mask av_cls_mask
         attention_inputs attention_values].
    rewrite Hmask. cbn [bindR]. rewrite Hout. cbn [bindR snd fst].
    f_equal. f_equal. f_equal.
    destruct (attention_type config); [|done]. apply Hembeds.
Qed.

Lemma attention_pooling_schedule_witness :
  let attention_inputs :=
    attention_values [VTensor2 [[1]; [2]; [3]]%Q; VTensor2 [[4]; [5]; [6]]%Q;
                      VTensor2 [[7]; [8]; [9]]%Q; VTensor2 [[1]; [1]; [1]]%Q]
      {| token_type_mat := Some (token_type_ids_to_mat [[2; 0; 1]%Z]);
         attention_mask := Some [[1; 1; 0]%Q]; cls_mask := Some (cls_mask_of 3) |} in
  ∃ output' attention_mask',
    pool_tensor 1 config_small (PTensor3 [[[1]; [2]; [3]]%Q]) (pooling_type config_small) 2
    = inr output'
    ∧ pool_tensor 1 config_small (av_attention_mask attention_inputs) "min" 2
      = inr attention_mask'
    ∧ bindR (pre_attention_pooling_values 1 config_small (PTensor3 [[[1]; [2]; [3]]%Q])
               attention_inputs)
        (λ r, bindR (post_attention_pooling_values 1 config_small (snd r))
                (λ attention_inputs', inr (fst r, attention_inputs')))
      = inr (output',
             {| av_position_embeds :=
                  match attention_type config_small with
                  | factorized =>
                      (λ x, stride_pool config_small x (AxisInt 0))
                        <$> av_position_embeds attention_inputs
                  | relative_shift => av_position_embeds attention_inputs
                  end;
                av_token_type_mat :=
                  stride_pool config_small (av_token_type_mat attention_inputs)
                    (AxisSeq [1; 2]%Z);
                av_attention_mask := attention_mask';
                av_cls_mask :=
                  stride_pool config_small (av_cls_mask attention_inputs)
                    (AxisSeq [1; 2]%Z) |}).
Proof.
  apply (attention_pooling_schedule 0 config_small [[[1]; [2]; [3]]%Q]
           [VTensor2 [[1]; [2]; [3]]%Q; VTensor2 [[4]; [5]; [6]]%Q;
            VTensor2 [[7]; [8]; [9]]%Q; VTensor2 [[1]; [1]; [1]]%Q]
           {| token_type_mat := Some (token_type_ids_to_mat [[2; 0; 1]%Z]);
              attention_mask := Some [[1; 1; 0]%Q]; cls_mask := Some (cls_mask_of 3) |}).
  left. reflexivity.
Defined.

(** ** The rows of the position-embedding table *)

(** X21.  The rows gathered from the position-embedding table.  For
    [seq_len = n >= 1] and block [k] with [m] position ids,
    [get_position_embeds] gathers for the attention without pooling the
    [2*m] rows [2*n + (m - t) * 2^k], [t < 2*m], of the table of [4*n] rows.
    They all lie inside the table exactly when [m * 2^k < 2*n]; in block 0
    they always do. *)
Theorem position_rows_range (config : FunnelConfig) (n k : nat) :
  1 ≤ n →
  let m := block_len config n k in
  ∃ rows,
    position_rows config n k = inr rows
    ∧ length rows = 2 * m
    ∧ (∀ t, t < 2 * m →
         rows !! t = Some (2 * Z.of_nat n + (Z.of_nat m - Z.of_nat t) * 2 ^ Z.of_nat k)%Z)
    ∧ (Forall (λ r, 0 ≤ r < 4 * Z.of_nat n)%Z rows ↔ m * 2 ^ k < 2 * n)
    ∧ (k = 0 → Forall (λ r, 0 ≤ r < 4 * Z.of_nat n)%Z rows).
Proof.
  intros Hn m. unfold position_rows. rewrite block_pos_closed by done. fold m.
  assert (Hm : 1 ≤ m) by (apply block_len_bounds, Hn).
  set (p := (2 ^ Z.of_nat k)%Z).
  assert (Hp : (1 ≤ p)%Z) by (subst p; lia).
  assert (Hpow : Z.of_nat (2 ^ k) = p).
  { subst p. by rewrite Nat2Z.inj_pow. }
  pose proof (relative_pos_progression (first_pos config k) (first_pos config k)
                p 1 m m Hp Hm Hm) as Hrel.
  replace (Z.of_nat 1 * p)%Z with p in Hrel by lia.
  change (relative_pos (progression (first_pos config k) p m) p None 1
          = inr (progression (first_pos config k - first_pos config k
                              + Z.of_nat (1 * m) * p) (- p) (1 * m + m))) in Hrel.
  rewrite Hrel. cbn [bindR].
  set (rows := (λ r, (r + Z.of_nat n * 2)%Z) <$> _).
  assert (Hlen : length rows = 2 * m).
  { subst rows. rewrite length_fmap, length_progression. lia. }
  assert (Hlookup : ∀ t, t < 2 * m →
            rows !! t = Some (2 * Z.of_nat n + (Z.of_nat m - Z.of_nat t) * p)%Z).
  { intros t Ht. subst rows. rewrite list_lookup_fmap, lookup_progression by lia.
    simpl. f_equal. lia. }
  assert (Hrange : Forall (λ r, 0 ≤ r < 4 * Z.of_nat n)%Z rows ↔ m * 2 ^ k < 2 * n).
  { split.
    - intros Hall. pose proof (Forall_lookup_1 _ _ _ _ Hall (Hlookup 0 ltac:(lia))) as H0.
      simpl in H0. nia.
    - intros Hlt. apply Forall_lookup_2. intros t r Hr.
      assert (Ht : t < 2 * m) by (rewrite <-Hlen; by eapply lookup_lt_Some).
      rewrite Hlookup in Hr by done. simplify_eq. nia. }
  exists rows. split; [done|]. split; [done|]. split; [done|]. split; [done|].
  intros ->. apply Hrange. subst m. simpl. lia.
Qed.

Lemma position_rows_range_witness :
  let m := block_len config_small 1 1 in
  ∃ rows,
    position_rows config_small 1 1 = inr rows
    ∧ length rows = 2 * m
    ∧ (∀ t, t < 2 * m →
         rows !! t = Some (2 * Z.of_nat 1 + (Z.of_nat m - Z.of_nat t) * 2 ^ Z.of_nat 1)%Z)
    ∧ (Forall (λ r, 0 ≤ r < 4 * Z.of_nat 1)%Z rows ↔ m * 2 ^ 1 < 2 * 1)
    ∧ (1 = 0 → Forall (λ r, 0 ≤ r < 4 * Z.of_nat 1)%Z rows).
Proof. apply (position_rows_range config_small 1 1). lia. Defined.
